(** * Paris Dental API: the seeding routine and the request handlers

    A shallow embedding of [main.py] and [schemas.py].  Python dictionaries
    and MongoDB documents are finite maps from field names to values, the
    database is a finite map from collection names to lists of documents,
    and a Python function that talks to the database is a function from the
    state of the world to an outcome (a value or a raised exception)
    together with the state it leaves behind. *)

From Stdlib Require Import ZArith NArith String Ascii List.
From stdpp Require Import base option list strings gmap pretty.

Local Open Scope string_scope.
Local Open Scope list_scope.

(** ** Python values, exceptions and effectful computations *)

Module Py.

(** The values stored in documents and returned in response bodies. *)
Inductive value :=
  | VNone
  | VBool (b : bool)
  | VInt (z : Z)
  | VStr (s : string)
  | VStrs (l : list string)
  | VTime (t : nat)
  | VOid (n : N).

#[global] Instance value_eq_dec : EqDecision value.
Proof. solve_decision. Defined.

(** The two exception classes the program raises or catches.  Both are
    subclasses of [Exception], so [except Exception] catches either. *)
Inductive exn :=
  | Exception (msg : string)
  | HTTPException (status_code : Z) (detail : string).

(** [str(e)]: the message of a plain exception; Starlette prints an
    HTTP exception as its status code, a colon and its detail. *)
Definition exn_str (e : exn) : string :=
  match e with
  | Exception msg => msg
  | HTTPException c d => pretty c +:+ ": " +:+ d
  end.

(** A Python string is held as its UTF-8 bytes.  A character is a byte
    that is not a continuation byte, together with the continuation bytes
    that follow it. *)
Definition is_continuation (c : ascii) : bool :=
  let n := nat_of_ascii c in (128 <=? n)%nat && (n <=? 191)%nat.

(** [len(s)]: the number of characters. *)
Fixpoint str_len (s : string) : nat :=
  match s with
  | EmptyString => 0
  | String c rest => if is_continuation c then str_len rest else S (str_len rest)
  end.

(** [s[:n]]: the first [n] characters. *)
Fixpoint str_prefix (n : nat) (s : string) : string :=
  match s with
  | EmptyString => EmptyString
  | String c rest =>
      if is_continuation c then String c (str_prefix n rest)
      else match n with
           | O => EmptyString
           | S k => String c (str_prefix k rest)
           end
  end.

Inductive outcome (A : Type) :=
  | Ok (a : A)
  | Raise (e : exn).
Arguments Ok {A} a.
Arguments Raise {A} e.

(** The world a request handler runs in: the module-level database handle
    ([db is None] when [handle] is [false]), the collections behind it,
    the next identifier the database will generate, the wall clock, the
    process environment, and the fate of the coming database calls (an
    entry [Some msg] makes that call raise [Exception msg]; once the list is
    used up every call succeeds). *)
Record world := World {
  handle : bool;
  colls : gmap string (list (gmap string value));
  next_oid : N;
  clock : nat;
  environ : gmap string string;
  pending : list (option string)
}.

Definition py (A : Type) : Type := world -> outcome A * world.

Definition ret {A} (a : A) : py A := fun w => (Ok a, w).

Definition raise {A} (e : exn) : py A := fun w => (Raise e, w).

Definition bind {A B} (m : py A) (k : A -> py B) : py B :=
  fun w =>
    match m w with
    | (Ok a, w') => k a w'
    | (Raise e, w') => (Raise e, w')
    end.

(** [try: m except Exception as e: h e] *)
Definition try_except {A} (m : py A) (h : exn -> py A) : py A :=
  fun w =>
    match m w with
    | (Ok a, w') => (Ok a, w')
    | (Raise e, w') => h e w'
    end.

(** [for x in l: body x] *)
Fixpoint for_each {A} (l : list A) (body : A -> py unit) : py unit :=
  match l with
  | [] => ret tt
  | x :: rest => bind (body x) (fun _ => for_each rest body)
  end.

(** [datetime.utcnow()]: reads the clock, which moves on. *)
Definition utcnow : py nat :=
  fun w =>
    (Ok (clock w),
     World (handle w) (colls w) (next_oid w) (S (clock w)) (environ w) (pending w)).

(** [os.getenv(name)] *)
Definition getenv (name : string) (w : world) : option string := environ w !! name.

End Py.
Export Py.

Declare Scope py_scope.
Delimit Scope py_scope with py.
Notation "'let!' x ':=' m 'in' k" := (bind m (fun x => k))
  (at level 10, x name, m at level 100, k at level 200) : py_scope.
Notation "m ';;' k" := (bind m (fun _ => k))
  (at level 100, k at level 200, right associativity) : py_scope.

Abbreviation doc := (gmap string value).

(** ** The MongoDB driver

    The four operations of the driver the program calls, on the collections
    of the world.  A call first meets its fate in [pending]: a call that
    raises leaves the collections as they were. *)

Module Mongo.

(** A condition on one field: [{field: v}] or [{field: {"$in": vs}}]. *)
Inductive cond :=
  | Is (v : value)
  | InList (vs : list value).

Abbreviation query := (gmap string cond).

(** Equality is an exact match; [$in] on a sequence field holds when the
    sequence contains one of the listed values. *)
Definition cond_holds (c : cond) (field : option value) : bool :=
  match c, field with
  | Is v, Some x => bool_decide (x = v)
  | InList vs, Some (VStrs l) => existsb (fun s => bool_decide (VStr s ∈ vs)) l
  | InList vs, Some x => bool_decide (x ∈ vs)
  | _, None => false
  end.

Definition matches (q : query) (d : doc) : bool :=
  bool_decide (map_Forall (fun k c => cond_holds c (d !! k) = true) q).

Definition coll (w : world) (name : string) : list doc :=
  default [] (colls w !! name).

(** The call is counted against [pending]. *)
Definition advance (w : world) : world :=
  World (handle w) (colls w) (next_oid w) (clock w) (environ w) (tail (pending w)).

Definition db_call {A} (op : world -> A * world) : py A :=
  fun w =>
    match pending w with
    | Some msg :: _ => (Raise (Exception msg), advance w)
    | _ => let '(a, w') := op (advance w) in (Ok a, w')
    end.

(** The document is stored under a freshly generated [_id]. *)
Definition store (name : string) (d : doc) (w : world) : world :=
  World (handle w)
        (<[name := coll w name ++ [<["_id" := VOid (next_oid w)]> d]]> (colls w))
        (N.succ (next_oid w)) (clock w) (environ w) (pending w).

(** [db[name].find_one(q)] *)
Definition find_one (name : string) (q : query) : py (option doc) :=
  db_call (fun w => (head (filter (fun d => matches q d = true) (coll w name)), w)).

(** [db[name].count_documents(q)] *)
Definition count_documents (name : string) (q : query) : py nat :=
  db_call (fun w => (length (filter (fun d => matches q d = true) (coll w name)), w)).

(** [db[name].insert_one(d).inserted_id] *)
Definition insert_one (name : string) (d : doc) : py N :=
  db_call (fun w => (next_oid w, store name d w)).

(** [list(db[name].find(q))] *)
Definition find (name : string) (q : query) : py (list doc) :=
  db_call (fun w => (filter (fun d => matches q d = true) (coll w name), w)).

(** [db.list_collection_names()] *)
Definition list_collection_names : py (list string) :=
  db_call (fun w => ((map_to_list (colls w)).*1, w)).

(** [str(ObjectId)]: twenty-four hexadecimal digits. *)
Definition hex_digit (n : N) : ascii :=
  match n with
  | 0 => "0" | 1 => "1" | 2 => "2" | 3 => "3" | 4 => "4" | 5 => "5"
  | 6 => "6" | 7 => "7" | 8 => "8" | 9 => "9" | 10 => "a" | 11 => "b"
  | 12 => "c" | 13 => "d" | 14 => "e" | _ => "f"
  end%N%char.

Fixpoint hex_fixed (digits : nat) (n : N) : string :=
  match digits with
  | O => ""
  | S k => hex_fixed k (n / 16) +:+ String (hex_digit (n mod 16)) ""
  end.

Definition oid_str (n : N) : string := hex_fixed 24 n.

End Mongo.
Export Mongo.

(** ** The schemas of [schemas.py] *)

Module Schemas.

(** A Pydantic model is dumped to the document that is stored. *)
Class BaseModel (A : Type) := model_dump : A -> doc.

Definition opt_str (o : option string) : value :=
  match o with
  | Some s => VStr s
  | None => VNone
  end.

Definition opt_time (o : option nat) : value :=
  match o with
  | Some t => VTime t
  | None => VNone
  end.

Module AppointmentRequest.
Record t := Make {
  full_name : string;
  email : option string;
  phone : string;
  preferred_date : option string;
  preferred_time : option string;
  service_type : option string;
  message : option string;
  source : option string
}.
Definition fields : list string :=
  ["full_name"; "email"; "phone"; "preferred_date"; "preferred_time";
   "service_type"; "message"; "source"].
End AppointmentRequest.

Module Testimonial.
Record t := Make {
  name : string;
  quote : string;
  rating : Z;
  photo_url : option string;
  featured : bool
}.
(** [rating: int = Field(5, ge=1, le=5)] *)
Definition valid (x : t) : bool := ((1 <=? rating x) && (rating x <=? 5))%Z.
End Testimonial.

Module Post.
Record t := Make {
  title : string;
  slug : string;
  excerpt : option string;
  content : string;
  author : option string;
  tags : list string;
  published_at : option nat;
  status : string
}.
End Post.

Module Service.
Record t := Make {
  name : string;
  category : string;
  description : string;
  highlights : list string;
  icon : option string;
  slug : option string
}.
End Service.

Module TeamMember.
Record t := Make {
  name : string;
  role : string;
  bio : option string;
  photo_url : option string;
  credentials : option string
}.
End TeamMember.

#[global] Instance AppointmentRequest_model : BaseModel AppointmentRequest.t :=
  fun r =>
    <["full_name" := VStr (AppointmentRequest.full_name r)]>
    (<["email" := opt_str (AppointmentRequest.email r)]>
    (<["phone" := VStr (AppointmentRequest.phone r)]>
    (<["preferred_date" := opt_str (AppointmentRequest.preferred_date r)]>
    (<["preferred_time" := opt_str (AppointmentRequest.preferred_time r)]>
    (<["service_type" := opt_str (AppointmentRequest.service_type r)]>
    (<["message" := opt_str (AppointmentRequest.message r)]>
    (<["source" := opt_str (AppointmentRequest.source r)]> ∅))))))).

#[global] Instance Testimonial_model : BaseModel Testimonial.t :=
  fun x =>
    <["name" := VStr (Testimonial.name x)]>
    (<["quote" := VStr (Testimonial.quote x)]>
    (<["rating" := VInt (Testimonial.rating x)]>
    (<["photo_url" := opt_str (Testimonial.photo_url x)]>
    (<["featured" := VBool (Testimonial.featured x)]> ∅)))).

#[global] Instance Post_model : BaseModel Post.t :=
  fun p =>
    <["title" := VStr (Post.title p)]>
    (<["slug" := VStr (Post.slug p)]>
    (<["excerpt" := opt_str (Post.excerpt p)]>
    (<["content" := VStr (Post.content p)]>
    (<["author" := opt_str (Post.author p)]>
    (<["tags" := VStrs (Post.tags p)]>
    (<["published_at" := opt_time (Post.published_at p)]>
    (<["status" := VStr (Post.status p)]> ∅))))))).

#[global] Instance Service_model : BaseModel Service.t :=
  fun s =>
    <["name" := VStr (Service.name s)]>
    (<["category" := VStr (Service.category s)]>
    (<["description" := VStr (Service.description s)]>
    (<["highlights" := VStrs (Service.highlights s)]>
    (<["icon" := opt_str (Service.icon s)]>
    (<["slug" := opt_str (Service.slug s)]> ∅))))).

(** *** Validation of a request body against [AppointmentRequest]

    The body is the parsed JSON object.  A [str] field takes a JSON string
    and nothing else; an [Optional] field also takes [null]; a field that
    is left out takes its default, and a required field has none.  What
    [EmailStr] accepts is decided by the validation library: [EmailStr s]
    is the address the model holds for the input [s], or [None] when the
    input is rejected. *)

#[local] Unset Elimination Schemes.
Inductive json :=
  | JNull
  | JBool (b : bool)
  | JNum (z : Z)
  | JStr (s : string)
  | JArr (items : list json)
  | JObj (members : list (string * json)).
#[local] Set Elimination Schemes.

Section Validation.

Variable EmailStr : string -> option string.

Definition str_field (j : json) : option string :=
  match j with
  | JStr s => Some s
  | _ => None
  end.

Definition email_field (j : json) : option string :=
  match j with
  | JStr s => EmailStr s
  | _ => None
  end.

Definition optional (inner : json -> option string) (j : json)
  : option (option string) :=
  match j with
  | JNull => Some None
  | _ => Some <$> inner j
  end.

(** [name: T = Field(...)] *)
Definition required (body : gmap string json) (k : string) : option string :=
  body !! k ≫= str_field.

(** [name: Optional[T] = Field(dflt)] *)
Definition defaulted (inner : json -> option string) (dflt : option string)
    (body : gmap string json) (k : string) : option (option string) :=
  match body !! k with
  | Some j => optional inner j
  | None => Some dflt
  end.

Definition model_validate (body : gmap string json) : option AppointmentRequest.t :=
  full_name ← required body "full_name";
  email ← defaulted email_field None body "email";
  phone ← required body "phone";
  preferred_date ← defaulted str_field None body "preferred_date";
  preferred_time ← defaulted str_field None body "preferred_time";
  service_type ← defaulted str_field None body "service_type";
  message ← defaulted str_field None body "message";
  source ← defaulted str_field (Some "website") body "source";
  Some (AppointmentRequest.Make full_name email phone preferred_date
          preferred_time service_type message source).

End Validation.

End Schemas.
Export Schemas.

(** ** The database helpers *)

Module Database.

Definition unavailable : string := "Database not available".

(** Modelled from the spec: [create_document] of the [database] module,
    which the sources import but do not contain.  It is the insert-one
    operation of the spec: the record is inserted into the named collection
    under an identifier the database generates, and that identifier is
    returned as a string.  With no database handle the call is a
    persistence failure. *)
Definition create_document {A} `{BaseModel A} (collection_name : string) (data : A)
    : py string :=
  fun w =>
    if handle w
    then (let! oid := insert_one collection_name (model_dump data) in
          ret (oid_str oid))%py w
    else (Raise (Exception unavailable), w).

(** Modelled from the spec: [get_documents] of the [database] module, which
    the sources import but do not contain.  It is the find-with-filter
    operation of the spec: the records of the named collection that satisfy
    the filter, all of them when the filter is empty.  With no database
    handle the call is a persistence failure. *)
Definition get_documents (collection_name : string) (filter_dict : query)
    : py (list doc) :=
  fun w =>
    if handle w
    then find collection_name filter_dict w
    else (Raise (Exception unavailable), w).

End Database.
Export Database.

(** ** The web framework

    What FastAPI does around a handler: the value a handler returns is sent
    with status 200, an [HTTPException] with its own status code and
    detail, any other exception as an internal server error, and a body
    the schema rejects is answered with status 422 before the handler is
    called.

    For a route that declares a [response_model] FastAPI also validates
    what the handler returned against that model and serialises it again.
    That step belongs to the validation library and is not part of [serve].
    What a listing handler returns is therefore stated on the handler
    ([get_testimonials], [get_services], [get_posts]); the statements made
    on the listing routes are those the step leaves as they are: the answer
    to a failed query, the absence of the internal identifier, the world left
    behind, and the seed records, which carry every field of their schema. *)

Module FastAPI.

Inductive payload :=
  | Json (d : doc)
  | JsonList (l : list doc)
  | Detail (s : string)
  | RequestValidationError.

Record response := Response { status : Z; body : payload }.

Definition serve {A} (render : A -> payload) (handler : py A)
    : world -> response * world :=
  fun w =>
    match handler w with
    | (Ok a, w') => (Response 200 (render a), w')
    | (Raise (HTTPException c d), w') => (Response c (Detail d), w')
    | (Raise (Exception _), w') => (Response 500 (Detail "Internal Server Error"), w')
    end.

Definition client_error (r : response) : bool :=
  ((400 <=? status r) && (status r <? 500))%Z.

End FastAPI.
Export FastAPI.

(** ** [main.py] *)

Module Main.

Definition SEED_RUN_FLAG : string := "__seed_paris_dental__".

(** Truth value of an object that is [None] or a dictionary. *)
Definition doc_truthy (o : option doc) : bool :=
  match o with
  | Some d => negb (bool_decide (d = ∅))
  | None => false
  end.

(** Truth value of an object that is [None] or a string. *)
Definition str_truthy (o : option string) : bool :=
  match o with
  | Some s => negb (bool_decide (s = ""))
  | None => false
  end.

Definition samples : list Testimonial.t :=
  [ Testimonial.Make "A.M." "Best Temecula dentist experience I've ever had." 5 None true;
    Testimonial.Make "J.S." "Beautiful office, gentle care, and amazing results!" 5 None true;
    Testimonial.Make "K.R." "They made me feel at ease from the moment I walked in." 5 None false ].

Definition services : list Service.t :=
  [ Service.Make "General Dentistry" "General"
      "Cleanings, exams, and preventive care for the whole family."
      ["Gentle cleanings"; "Digital X-rays"; "Comprehensive exams"]
      (Some "Tooth") (Some "general-dentistry");
    Service.Make "Cosmetic Dentistry" "Cosmetic"
      "Veneers, whitening, and smile design for confident smiles."
      ["Porcelain veneers"; "Professional whitening"; "Bonding"]
      (Some "Sparkles") (Some "cosmetic-dentistry");
    Service.Make "Dental Implants" "Restorative"
      "Modern implant solutions to replace missing teeth."
      ["Single and full-arch"; "3D guided planning"; "Natural aesthetics"]
      (Some "Pillar") (Some "dental-implants");
    Service.Make "Periodontal Care" "Periodontal"
      "Laser-assisted therapy and maintenance for healthy gums."
      ["Laser therapy"; "Deep cleaning"; "Periodontal maintenance"]
      (Some "HeartPulse") (Some "periodontal-care");
    Service.Make "Dental Technology" "Technology"
      "State-of-the-art tech for precision and comfort."
      ["CAD/CAM same-day"; "3D CBCT imaging"; "Intraoral scanning"]
      (Some "Cpu") (Some "dental-technology") ].

Definition welcome_post (now : nat) : Post.t :=
  Post.Make
    "Welcome to Paris Dental – Modern Dental Care in Temecula"
    "welcome-paris-dental"
    (Some "Discover patient-first care powered by advanced technology in Temecula.")
    "We are thrilled to welcome you to our modern practice led by Dr. Noorullah Azim. Our team focuses on comfort, precision, and beautiful results."
    (Some "Paris Dental")
    ["Temecula dentist"; "cosmetic dentistry"]
    (Some now)
    "published".

Definition seed_query : query := {[ "key" := Is (VStr SEED_RUN_FLAG) ]}.

Definition seed_marker (now : nat) : doc :=
  <["key" := VStr SEED_RUN_FLAG]> (<["created_at" := VTime now]> ∅).

Definition ensure_seed_data : py unit :=
  fun w =>
    if negb (handle w) then (Ok tt, w)
    else
      (let! marker := find_one "meta" seed_query in
       if doc_truthy marker then ret tt
       else
         (let! n := count_documents "testimonial" ∅ in
          if Nat.eqb n 0
          then for_each samples (fun t => create_document "testimonial" t ;; ret tt)
          else ret tt) ;;
         (let! n := count_documents "service" ∅ in
          if Nat.eqb n 0
          then for_each services (fun s => create_document "service" s ;; ret tt)
          else ret tt) ;;
         (let! n := count_documents "post" ∅ in
          if Nat.eqb n 0
          then (let! now := utcnow in
                create_document "post" (welcome_post now) ;; ret tt)
          else ret tt) ;;
         let! now := utcnow in
         insert_one "meta" (seed_marker now) ;; ret tt)%py w.

Definition startup_event : py unit :=
  try_except ensure_seed_data (fun _ => ret tt).

Definition read_root : doc :=
  <["message" := VStr "Paris Dental API running"]> (<["status" := VStr "ok"]> ∅).

Definition hello : doc :=
  <["message" := VStr "Hello from Paris Dental backend!"]> ∅.

(** The body of the outer [try] of [test_database]: the dictionary as the
    block leaves it, and the exception if the block was left early. *)
Definition test_database_try (response : doc) : world -> (doc * option exn) * world :=
  fun w =>
    if handle w then
      let response := <["database" := VStr "✅ Available"]> response in
      let response :=
        <["database_url" :=
            VStr (if str_truthy (getenv "DATABASE_URL" w) then "✅ Set" else "❌ Not Set")]>
          response in
      let response :=
        <["database_name" :=
            VStr (if str_truthy (getenv "DATABASE_NAME" w)
                  then default "" (getenv "DATABASE_NAME" w)
                  else "❌ Not Set")]>
          response in
      let response := <["connection_status" := VStr "Connected"]> response in
      match list_collection_names w with
      | (Ok names, w') =>
          let response := <["collections" := VStrs names]> response in
          (<["database" := VStr "✅ Connected & Working"]> response, None, w')
      | (Raise e, w') =>
          (<["database" :=
               VStr ("⚠️ Connected but Error: " +:+ str_prefix 80 (exn_str e))]> response,
           None, w')
      end
    else
      (<["database" := VStr "⚠️ Available but not initialized"]> response, None, w).

Definition test_database : py doc :=
  fun w =>
    let response : doc :=
      <["backend" := VStr "✅ Running"]>
      (<["database" := VStr "❌ Not Available"]>
      (<["database_url" := VStr "❌ Not Set"]>
      (<["database_name" := VStr "❌ Not Set"]>
      (<["connection_status" := VStr "Not Connected"]>
      (<["collections" := VStrs []]> ∅))))) in
    match test_database_try response w with
    | (response, None, w') => (Ok response, w')
    | (response, Some e, w') =>
        (Ok (<["database" := VStr ("❌ Error: " +:+ str_prefix 80 (exn_str e))]> response), w')
    end.

Definition internal_error {A} (e : exn) : py A :=
  raise (HTTPException 500 (exn_str e)).

Definition create_appointment (request : AppointmentRequest.t) : py doc :=
  try_except
    (let! inserted_id := create_document "appointmentrequest" request in
     ret (<["id" := VStr inserted_id]> (<["success" := VBool true]> ∅)))%py
    internal_error.

Definition get_testimonials (featured : option bool) : py (list doc) :=
  try_except
    (let filt : query :=
       match featured with
       | Some b => <["featured" := Is (VBool b)]> ∅
       | None => ∅
       end in
     let! docs := get_documents "testimonial" filt in
     ret (map (delete "_id") docs))%py
    internal_error.

Definition get_services (category : option string) : py (list doc) :=
  try_except
    (let filt : query :=
       if str_truthy category then {[ "category" := Is (opt_str category) ]} else ∅ in
     let! docs := get_documents "service" filt in
     ret (map (delete "_id") docs))%py
    internal_error.

Definition get_posts (tag : option string) : py (list doc) :=
  try_except
    (let filt : query :=
       if str_truthy tag then {[ "tags" := InList [opt_str tag] ]} else ∅ in
     let! docs := get_documents "post" filt in
     ret (map (delete "_id") docs))%py
    internal_error.

(** The routes: the handler behind the framework. *)

Definition route_test : world -> response * world := serve Json test_database.

Definition route_testimonials (featured : option bool) : world -> response * world :=
  serve JsonList (get_testimonials featured).

Definition route_services (category : option string) : world -> response * world :=
  serve JsonList (get_services category).

Definition route_posts (tag : option string) : world -> response * world :=
  serve JsonList (get_posts tag).

Definition route_appointment (EmailStr : string -> option string)
    (request_body : gmap string json) : world -> response * world :=
  fun w =>
    match model_validate EmailStr request_body with
    | Some request => serve Json (create_appointment request) w
    | None => (Response 422 RequestValidationError, w)
    end.

End Main.
Export Main.

(** ** Reasoning about computations

    [spec P m Q E]: started in a world that satisfies [P], the computation
    [m] either returns a value and a world that satisfy [Q], or raises an
    exception and leaves a world that satisfy [E].  Computations are total
    functions, so one of the two always happens. *)

Definition spec {A} (P : world -> Prop) (m : py A)
    (Q : A -> world -> Prop) (E : exn -> world -> Prop) : Prop :=
  forall w, P w ->
    match m w with
    | (Ok a, w') => Q a w'
    | (Raise e, w') => E e w'
    end.

(** No coming database call is fated to raise. *)
Definition calm (w : world) : Prop := Forall (fun o => o = None) (pending w).

(** The collection [name] replaced by [l]. *)
Definition upd (name : string) (l : list doc) (c : string -> list doc)
    : string -> list doc :=
  fun n => if decide (n = name) then l else c n.

(** The handle is established, the collections are those of [c], and
    under [K] no database call will raise. *)
Definition holds (K : Prop) (c : string -> list doc) (w : world) : Prop :=
  handle w = true /\ (K -> calm w) /\ forall n, coll w n = c n.

(** [stored] is the document [d] under a generated identifier. *)
Definition stored_as (d stored : doc) : Prop :=
  exists oid, stored = <["_id" := VOid oid]> d.

(** A record with the seed flag as its key is in the metadata collection. *)
Definition has_marker (meta : list doc) : Prop :=
  Exists (fun d => d !! "key" = Some (VStr SEED_RUN_FLAG)) meta.

(** What seeding does to one collection: filled with the stored seed
    records when it was empty, left alone otherwise. *)
Definition seeded_with (seeds old new : list doc) : Prop :=
  match old with
  | [] => Forall2 stored_as seeds new
  | _ => new = old
  end.

(** ** The vocabulary of the statements *)

(** What one run of the seed routine does to the collections [c]. *)
Definition seeding (c c' : string -> list doc) : Prop :=
  seeded_with (model_dump <$> samples) (c "testimonial") (c' "testimonial") /\
  seeded_with (model_dump <$> services) (c "service") (c' "service") /\
  (exists t, seeded_with [model_dump (welcome_post t)] (c "post") (c' "post")) /\
  (exists oid t, c' "meta" = c "meta" ++ [<["_id" := VOid oid]> (seed_marker t)]) /\
  forall n, n ∉ ["testimonial"; "service"; "post"; "meta"] -> c' n = c n.

(** The last thing that happened to the world is the write of the marker. *)
Definition marker_written (w : world) : Prop :=
  exists w0 t, w = store "meta" (seed_marker t) w0.

(** The numbers of testimonials, services, posts and marker records. *)
Definition record_counts (w : world) : nat * nat * nat * nat :=
  (length (coll w "testimonial"), length (coll w "service"), length (coll w "post"),
   length (filter (fun d : doc => d !! "key" = Some (VStr SEED_RUN_FLAG)) (coll w "meta"))).

(** The three content collections and the metadata collection are empty. *)
Definition empty_db (w : world) : Prop :=
  coll w "testimonial" = [] /\ coll w "service" = [] /\
  coll w "post" = [] /\ coll w "meta" = [].

(** A freshly created database: nothing stored, nothing fated to fail. *)
Definition fresh_world : world := World true ∅ 0 0 ∅ [].

(** A database that holds one testimonial and nothing else. *)
Definition one_testimonial_world : world :=
  World true {[ "testimonial" := [ {[ "name" := VStr "L.T." ]} ] ]} 7 0 ∅ [].

(** The metadata collection is [M]. *)
Definition meta_is (M : list doc) (w : world) : Prop := coll w "meta" = M.

(** An empty database whose third call fails: the marker lookup and the
    count of the testimonials succeed, the first insertion raises. *)
Definition failing_world : world :=
  World true ∅ 0 0 ∅ [None; None; Some "connection lost"].

(** The next database call will succeed: the handle is established and the
    call is not fated to raise. *)
Definition next_call_ok (w : world) : bool :=
  handle w &&
  match pending w with
  | Some _ :: _ => false
  | _ => true
  end.

(** Query the collection [name] with the filter [q] and strip the internal
    identifier from every record found; a failure is a server error. *)
Definition query_listing (name : string) (q : query) : py (list doc) :=
  try_except
    (let! docs := get_documents name q in ret (map (delete "_id") docs))%py
    internal_error.

(** The three listing requests. *)
Inductive listing :=
  | Testimonials (featured : option bool)
  | Services (category : option string)
  | Posts (tag : option string).

Definition route_listing (r : listing) : world -> response * world :=
  match r with
  | Testimonials featured => route_testimonials featured
  | Services category => route_services category
  | Posts tag => route_posts tag
  end.

(** A database that was seeded once. *)
Definition seeded_world : world := (ensure_seed_data fresh_world).2.

(** The six fields of the probe's report. *)
Definition report_fields : gset string :=
  {[ "backend"; "database"; "database_url"; "database_name";
     "connection_status"; "collections" ]}.

(** What the report says about the database: working, or which way it is
    not. *)
Definition database_status (w : world) : string :=
  if handle w then
    match pending w with
    | Some msg :: _ => "⚠️ Connected but Error: " +:+ str_prefix 80 msg
    | _ => "✅ Connected & Working"
    end
  else "⚠️ Available but not initialized".

(** The stored value of a JSON scalar. *)
Definition json_value (j : json) : option value :=
  match j with
  | JNull => Some VNone
  | JBool b => Some (VBool b)
  | JNum z => Some (VInt z)
  | JStr s => Some (VStr s)
  | _ => None
  end.

Definition is_text (j : json) : Prop := exists s, j = JStr s.

(** The ways a body can break a field constraint of [AppointmentRequest]: a
    required field is missing or is not a string, the email is a string the
    validation rejects, or an optional field is neither a string nor null. *)
Inductive violates (EmailStr : string -> option string) (body : gmap string json)
    : Prop :=
  | required_missing k :
      k ∈ ["full_name"; "phone"] -> body !! k = None -> violates EmailStr body
  | required_not_text k j :
      k ∈ ["full_name"; "phone"] -> body !! k = Some j -> ~ is_text j ->
      violates EmailStr body
  | email_malformed s :
      body !! "email" = Some (JStr s) -> EmailStr s = None -> violates EmailStr body
  | optional_not_text k j :
      k ∈ ["email"; "preferred_date"; "preferred_time"; "service_type"; "message"; "source"] ->
      body !! k = Some j -> j <> JNull -> ~ is_text j -> violates EmailStr body.

(** Every submitted field of the schema is stored with the value it was
    submitted with. *)
Definition submitted_intact (body : gmap string json) (stored : doc) : Prop :=
  forall k j, k ∈ AppointmentRequest.fields -> body !! k = Some j ->
              stored !! k = json_value j.

(** *** An email validation to run the examples with

    It accepts an address with text on both sides of its first at-sign and
    no second one, and holds it with the domain in lower case, as the
    validation library does for such an address. *)

Definition lower (c : ascii) : ascii :=
  let n := nat_of_ascii c in
  if (65 <=? n)%nat && (n <=? 90)%nat then ascii_of_nat (n + 32) else c.

Fixpoint lower_string (s : string) : string :=
  match s with
  | EmptyString => EmptyString
  | String c rest => String (lower c) (lower_string rest)
  end.

Fixpoint split_at_sign (s : string) : option (string * string) :=
  match s with
  | EmptyString => None
  | String c rest =>
      if Ascii.eqb c "@" then Some (EmptyString, rest)
      else match split_at_sign rest with
           | Some (l, d) => Some (String c l, d)
           | None => None
           end
  end.

Definition plain_address (s : string) : option string :=
  match split_at_sign s with
  | Some (l, d) =>
      match l, d, split_at_sign d with
      | String _ _, String _ _, None => Some (l +:+ "@" +:+ lower_string d)
      | _, _, _ => None
      end
  | None => None
  end.

(** A request without its phone number. *)
Definition body_without_phone : gmap string json :=
  {[ "full_name" := JStr "Jane Roe"; "email" := JStr "jane@example.com" ]}.

(** A request with a malformed email. *)
Definition body_bad_email : gmap string json :=
  {[ "full_name" := JStr "Jane Roe"; "phone" := JStr "951-555-0100";
     "email" := JStr "not-an-email" ]}.

(** A valid request from Jane Roe, with capitals in the domain of her
    address. *)
Definition body_jane : gmap string json :=
  {[ "full_name" := JStr "Jane Roe"; "phone" := JStr "951-555-0100";
     "email" := JStr "jane@EXAMPLE.COM" ]}.

Definition request_jane : AppointmentRequest.t :=
  AppointmentRequest.Make "Jane Roe" (Some "jane@example.com") "951-555-0100"
    None None None None (Some "website").

(** A database that is down: the coming call raises. *)
Definition down_world : world :=
  World true ∅ 0 0 ∅ [Some "connection refused"].

(** *** Vocabulary of the further properties *)

(** The collections the seed routine writes to. *)
Definition seed_names : list string := ["testimonial"; "service"; "post"; "meta"].

(** A property of the world that no step of the seed routine can break: it
    survives a database call that stores nothing, a reading of the clock,
    and the insertion of a record into one of the seed collections. *)
Definition stable (Inv : world -> Prop) : Prop :=
  (forall w, Inv w -> Inv (advance w)) /\
  (forall w, Inv w -> Inv (utcnow w).2) /\
  (forall w name d, name ∈ seed_names -> Inv w -> Inv (store name d w)).

(** Since [w0], records were only appended, and only to the seed
    collections. *)
Definition only_seeded (w0 w : world) : Prop :=
  (forall n, coll w0 n `prefix_of` coll w n) /\
  (forall n, n ∉ seed_names -> coll w n = coll w0 n).

(** The record carries the tag: its tags are a sequence that contains it,
    or the tag itself. *)
Definition has_tag (tag : string) (d : doc) : bool :=
  match d !! "tags" with
  | Some (VStrs l) => bool_decide (tag ∈ l)
  | Some v => bool_decide (v = VStr tag)
  | None => false
  end.

(** The names of the fields of a stored appointment request. *)
Definition appointment_fields : gset string :=
  {[ "full_name"; "email"; "phone"; "preferred_date"; "preferred_time";
     "service_type"; "message"; "source" ]}.

(** No database handle, although the environment names a database. *)
Definition no_handle_world : world :=
  World false ∅ 0 0 {[ "DATABASE_URL" := "mongodb://db:27017" ]} [].

(** A request that carries a key the schema does not know. *)
Definition body_with_extra : gmap string json :=
  <["utm_campaign" := JStr "spring"]> body_jane.

(** ** Rules of the program logic *)

Lemma spec_ret {A} (P : world -> Prop) (a : A) Q E :
  (forall w, P w -> Q a w) -> spec P (ret a) Q E.
Proof. intros H w Hw. simpl. auto. Qed.

Lemma spec_bind {A B} P (m : py A) (k : A -> py B) R Q E :
  spec P m R E -> (forall a, spec (R a) (k a) Q E) -> spec P (bind m k) Q E.
Proof.
  intros Hm Hk w Hw. unfold bind. specialize (Hm w Hw).
  destruct (m w) as [[a|e] w']; [ apply (Hk a w' Hm) | exact Hm ].
Qed.

Lemma spec_weaken {A} (P P' : world -> Prop) (m : py A) (Q Q' : A -> world -> Prop)
    (E E' : exn -> world -> Prop) :
  spec P' m Q' E' ->
  (forall w, P w -> P' w) -> (forall a w, Q' a w -> Q a w) ->
  (forall e w, E' e w -> E e w) ->
  spec P m Q E.
Proof.
  intros H HP HQ HE w Hw. specialize (H w (HP w Hw)).
  destruct (m w) as [[a|e] w']; auto.
Qed.

Lemma spec_pre_pure {A} (F : Prop) (P : world -> Prop) (m : py A) Q E :
  (F -> spec P m Q E) -> spec (fun w => F /\ P w) m Q E.
Proof. intros H w (HF & Hw). by apply H. Qed.

Lemma spec_try {A} P (m : py A) h R Q E :
  spec P m Q R -> (forall e, spec (R e) (h e) Q E) -> spec P (try_except m h) Q E.
Proof.
  intros Hm Hh w Hw. unfold try_except. specialize (Hm w Hw).
  destruct (m w) as [[a|e] w']; [ exact Hm | apply (Hh e w' Hm) ].
Qed.

Lemma spec_db_call {A} (P : world -> Prop) (op : world -> A * world) Q E :
  (forall w, P w ->
     match pending w with
     | Some msg :: _ => E (Exception msg) (advance w)
     | _ => Q (op (advance w)).1 (op (advance w)).2
     end) ->
  spec P (db_call op) Q E.
Proof.
  intros H w Hw. specialize (H w Hw). unfold db_call.
  destruct (pending w) as [|[msg|] rest]; try exact H;
    destruct (op (advance w)); exact H.
Qed.

Lemma calm_head w msg rest : calm w -> pending w <> Some msg :: rest.
Proof.
  unfold calm. intros Hc Hp. rewrite Hp in Hc.
  apply Forall_cons in Hc as [Hc _]. discriminate.
Qed.

Lemma calm_advance w : calm w -> calm (advance w).
Proof.
  unfold calm. simpl. destruct (pending w); simpl; [ done | ].
  intros H. by apply Forall_cons in H as [_ H].
Qed.

Lemma coll_store name d w n :
  coll (store name d w) n =
  if decide (n = name) then coll w name ++ [<["_id" := VOid (next_oid w)]> d] else coll w n.
Proof.
  unfold coll at 1. simpl. destruct (decide (n = name)) as [->|Hne].
  - by rewrite lookup_insert_eq.
  - by rewrite lookup_insert_ne.
Qed.

Lemma holds_ext K c c' w : (forall n, c n = c' n) -> holds K c w -> holds K c' w.
Proof.
  intros Hcc (Hh & Hk & Hc). repeat split; auto.
  intros n. by rewrite <- Hcc.
Qed.

Lemma holds_advance K c w : holds K c w -> holds K c (advance w).
Proof.
  intros (Hh & Hk & Hc). repeat split; auto.
  intros k. apply calm_advance. auto.
Qed.

Lemma holds_store K c w name d :
  holds K c w ->
  holds K (upd name (c name ++ [<["_id" := VOid (next_oid w)]> d]) c) (store name d w).
Proof.
  intros (Hh & Hk & Hc). repeat split; auto.
  intros n. rewrite coll_store. unfold upd.
  destruct (decide (n = name)); by rewrite Hc.
Qed.

(** A database call in a world that [holds]: under [K] it cannot raise. *)
Lemma spec_db_call_holds {A} K c (op : world -> A * world) Q :
  (forall w, holds K c w -> Q (op w).1 (op w).2) ->
  spec (holds K c) (db_call op) Q (fun _ _ => ~ K).
Proof.
  intros H. apply spec_db_call. intros w Hw.
  destruct (pending w) as [|[msg|] rest] eqn:Hp;
    try (apply H; by apply holds_advance).
  intros k. destruct Hw as (_ & Hk & _). exact (calm_head w msg rest (Hk k) Hp).
Qed.

Lemma spec_count K c name :
  spec (holds K c) (count_documents name ∅)
       (fun n w => n = length (c name) /\ holds K c w) (fun _ _ => ~ K).
Proof.
  apply spec_db_call_holds. intros w Hw. simpl. split; [ | done ].
  destruct Hw as (_ & _ & Hc). rewrite Hc. f_equal.
  induction (c name) as [|d l IH]; [ done | ].
  rewrite filter_cons_True; [ by f_equal | ].
  unfold matches. apply bool_decide_eq_true. apply map_Forall_empty.
Qed.

(** With the handle established the guard [db is None] is not taken. *)
Lemma spec_if_handle {A} K c (m1 m2 : py A) Q E :
  spec (holds K c) m2 Q E ->
  spec (holds K c) (fun w => if negb (handle w) then m1 w else m2 w) Q E.
Proof. intros H w Hw. rewrite (proj1 Hw). simpl. by apply H. Qed.

Lemma spec_bind_holds {A B} K c (m : py A) (k : A -> py B)
    (F : A -> (string -> list doc) -> Prop) Q E :
  spec (holds K c) m (fun a w => exists c', holds K c' w /\ F a c') E ->
  (forall a c', F a c' -> spec (holds K c') (k a) Q E) ->
  spec (holds K c) (bind m k) Q E.
Proof.
  intros Hm Hk. eapply spec_bind; [ exact Hm | ].
  intros a w (c' & Hw & HF). by apply (Hk a c' HF).
Qed.

Lemma spec_utcnow K c :
  spec (holds K c) utcnow (fun _ w => exists c', holds K c' w /\ forall n, c' n = c n)
       (fun _ _ => ~ K).
Proof. intros w Hw. simpl. exists c. split; [ exact Hw | done ]. Qed.

Lemma spec_insert_one K c name d :
  spec (holds K c) (insert_one name d)
       (fun oid w => holds K (upd name (c name ++ [<["_id" := VOid oid]> d]) c) w)
       (fun _ _ => ~ K).
Proof. apply spec_db_call_holds. intros w Hw. simpl. by apply holds_store. Qed.

Lemma spec_create_document {A} `{BaseModel A} K c name (x : A) :
  spec (holds K c) (create_document name x)
       (fun s w => exists oid, s = oid_str oid /\
          holds K (upd name (c name ++ [<["_id" := VOid oid]> (model_dump x)]) c) w)
       (fun _ _ => ~ K).
Proof.
  intros w Hw. unfold create_document. rewrite (proj1 Hw). revert w Hw.
  eapply spec_bind; [ apply spec_insert_one | ].
  intros oid. apply spec_ret. intros w Hw. by exists oid.
Qed.

Lemma spec_create_unit {A} `{BaseModel A} K c name (x : A) :
  spec (holds K c) (create_document name x ;; ret tt)%py
       (fun _ w => exists oid,
          holds K (upd name (c name ++ [<["_id" := VOid oid]> (model_dump x)]) c) w)
       (fun _ _ => ~ K).
Proof.
  eapply spec_bind; [ apply spec_create_document | ].
  intros s. apply spec_ret. intros w (oid & _ & Hw). by exists oid.
Qed.

(** The seeding loop appends the stored form of each record, in order. *)
Lemma spec_seed_loop {A} `{BaseModel A} K name (l : list A) : forall c,
  spec (holds K c)
       (for_each l (fun x => create_document name x ;; ret tt)%py)
       (fun _ w => exists c', holds K c' w /\
          (exists new, Forall2 stored_as (model_dump <$> l) new /\
                       c' name = c name ++ new) /\
          forall n, n <> name -> c' n = c n)
       (fun _ _ => ~ K).
Proof.
  induction l as [|x l IH]; intros c.
  - apply spec_ret. intros w Hw. exists c. split; [ exact Hw | ]. split; [ | done ].
    exists []. split; [ constructor | by rewrite app_nil_r ].
  - simpl. eapply spec_bind; [ apply spec_create_unit | ].
    intros [] w (oid & Hw). revert w Hw.
    eapply spec_weaken; [ apply IH | done | | done ].
    intros [] w (c' & Hw & (new & Hnew & Hc') & Hframe).
    exists c'. split; [ exact Hw | ]. split.
    + exists (<["_id" := VOid oid]> (model_dump x) :: new). split.
      * constructor; [ by exists oid | exact Hnew ].
      * rewrite Hc'. unfold upd. rewrite decide_True by done.
        by rewrite <- app_assoc.
    + intros n Hn. rewrite Hframe by done. unfold upd. by rewrite decide_False.
Qed.

(** The seed testimonials satisfy the rating constraint of their schema. *)
Example samples_valid : forallb Testimonial.valid samples = true.
Proof. reflexivity. Qed.

Lemma matches_seed_query (d : doc) :
  matches seed_query d = true <-> d !! "key" = Some (VStr SEED_RUN_FLAG).
Proof.
  unfold matches, seed_query. rewrite bool_decide_eq_true, map_Forall_singleton.
  simpl. destruct (d !! "key") as [v|]; simpl; [ | done ].
  rewrite bool_decide_eq_true. split; congruence.
Qed.

(** The guard of the seed routine is taken exactly when the marker is there:
    a record that matches the query has a key and so is a true value. *)
Lemma guard_has_marker (meta : list doc) :
  doc_truthy (head (filter (fun d => matches seed_query d = true) meta)) = true
  <-> has_marker meta.
Proof.
  unfold has_marker. induction meta as [|d l IH]; simpl.
  - split; [ done | intros H; inversion H ].
  - rewrite Exists_cons. destruct (decide (matches seed_query d = true)) as [Hm|Hm].
    + rewrite filter_cons_True by done. simpl.
      apply matches_seed_query in Hm. split; [ by left | intros _ ].
      apply negb_true_iff, bool_decide_eq_false. intros ->.
      by rewrite lookup_empty in Hm.
    + rewrite filter_cons_False by done. rewrite IH.
      rewrite <- matches_seed_query. tauto.
Qed.

Lemma spec_find_marker K c :
  spec (holds K c) (find_one "meta" seed_query)
       (fun o w => exists c', holds K c' w /\
          ((doc_truthy o = true <-> has_marker (c "meta")) /\ forall n, c' n = c n))
       (fun _ _ => ~ K).
Proof.
  apply spec_db_call_holds. intros w Hw. simpl. exists c.
  split; [ exact Hw | ]. split; [ | done ].
  destruct Hw as (_ & _ & Hc). rewrite Hc. apply guard_has_marker.
Qed.

Lemma spec_seed_block {A} `{BaseModel A} K c name (l : list A) :
  spec (holds K c)
       (let! n := count_documents name ∅ in
        if Nat.eqb n 0
        then for_each l (fun x => create_document name x ;; ret tt)
        else ret tt)%py
       (fun _ w => exists c', holds K c' w /\
          (seeded_with (model_dump <$> l) (c name) (c' name) /\
           forall n, n <> name -> c' n = c n))
       (fun _ _ => ~ K).
Proof.
  eapply spec_bind; [ apply spec_count | ].
  intros n. apply spec_pre_pure. intros ->. unfold seeded_with.
  destruct (c name) as [|d0 old] eqn:Hold; simpl.
  - eapply spec_weaken; [ apply spec_seed_loop | done | | done ].
    intros [] w (c' & Hw & (new & Hnew & Hc') & Hframe).
    exists c'. split; [ exact Hw | ]. split; [ | exact Hframe ].
    rewrite Hc', Hold. exact Hnew.
  - apply spec_ret. intros w Hw. exists c. by rewrite Hold.
Qed.

Lemma spec_post_block K c :
  spec (holds K c)
       (let! n := count_documents "post" ∅ in
        if Nat.eqb n 0
        then (let! now := utcnow in
              create_document "post" (welcome_post now) ;; ret tt)
        else ret tt)%py
       (fun _ w => exists c', holds K c' w /\
          ((exists t, seeded_with [model_dump (welcome_post t)] (c "post") (c' "post")) /\
           forall n, n <> "post" -> c' n = c n))
       (fun _ _ => ~ K).
Proof.
  eapply spec_bind; [ apply spec_count | ].
  intros n. apply spec_pre_pure. intros ->. unfold seeded_with.
  destruct (c "post") as [|d0 old] eqn:Hold; simpl.
  - eapply spec_bind_holds; [ apply spec_utcnow | ].
    intros now c1 Hc1. simpl in Hc1.
    eapply spec_weaken; [ apply spec_create_unit | done | | done ].
    intros [] w (oid & Hw). eexists. split; [ exact Hw | ]. split.
    + exists now. unfold upd. rewrite decide_True by done.
      rewrite Hc1, Hold. simpl. constructor; [ by exists oid | constructor ].
    + intros n Hn. unfold upd. rewrite decide_False by done. apply Hc1.
  - apply spec_ret. intros w Hw. exists c. rewrite Hold.
    split; [ exact Hw | ]. split; [ by exists 0 | done ].
Qed.

Lemma spec_marker_block K c :
  spec (holds K c)
       (let! now := utcnow in insert_one "meta" (seed_marker now) ;; ret tt)%py
       (fun _ w => exists c', (holds K c' w /\ marker_written w) /\
          ((exists oid t, c' "meta" = c "meta" ++ [<["_id" := VOid oid]> (seed_marker t)]) /\
           forall n, n <> "meta" -> c' n = c n))
       (fun _ _ => ~ K).
Proof.
  eapply spec_bind_holds; [ apply spec_utcnow | ].
  intros now c1 Hc1. simpl in Hc1.
  eapply (spec_bind _ _ _
            (fun oid w => holds K (upd "meta" (c1 "meta" ++
                              [<["_id" := VOid oid]> (seed_marker now)]) c1) w
                          /\ marker_written w)).
  - apply spec_db_call_holds. intros w Hw. simpl. split.
    + by apply holds_store.
    + by exists w, now.
  - intros oid. apply spec_ret. intros w (Hw & Hlast).
    eexists. split; [ split; [ exact Hw | exact Hlast ] | ]. split.
    + exists oid, now. unfold upd. rewrite decide_True by done. by rewrite Hc1.
    + intros n Hn. unfold upd. rewrite decide_False by done. apply Hc1.
Qed.

(** A run that finds no marker seeds the empty collections and then writes
    the marker; under [K] it does not raise. *)
Lemma spec_seed_fresh K c :
  ~ has_marker (c "meta") ->
  spec (holds K c) ensure_seed_data
       (fun _ w => exists c', (holds K c' w /\ marker_written w) /\ seeding c c')
       (fun _ _ => ~ K).
Proof.
  intros Hfresh . unfold ensure_seed_data. apply spec_if_handle.
  eapply spec_bind_holds; [ apply spec_find_marker | ].
  intros o c0 (Hguard & Hc0). simpl in Hc0.
  destruct (doc_truthy o); [ exfalso; apply Hfresh; by apply Hguard | ].
  eapply spec_bind_holds; [ apply spec_seed_block | ].
  intros [] c1 (Ht & Hc1). simpl in Ht, Hc1.
  eapply spec_bind_holds; [ apply spec_seed_block | ].
  intros [] c2 (Hs & Hc2). simpl in Hs, Hc2.
  eapply spec_bind_holds; [ apply spec_post_block | ].
  intros [] c3 (Hp & Hc3). simpl in Hp, Hc3.
  eapply spec_weaken; [ apply spec_marker_block | done | | done ].
  intros [] w (c4 & Hw & (oid & t & Hm) & Hc4).
  exists c4. split; [ exact Hw | ].
  assert (Et : c4 "testimonial" = c1 "testimonial")
    by (rewrite (Hc4 "testimonial"), (Hc3 "testimonial"), (Hc2 "testimonial"); done).
  assert (Es : c4 "service" = c2 "service")
    by (rewrite (Hc4 "service"), (Hc3 "service"); done).
  assert (Es0 : c1 "service" = c "service")
    by (rewrite (Hc1 "service"), (Hc0 "service"); done).
  assert (Ep : c4 "post" = c3 "post") by (rewrite (Hc4 "post"); done).
  assert (Ep0 : c2 "post" = c "post")
    by (rewrite (Hc2 "post"), (Hc1 "post"), (Hc0 "post"); done).
  assert (Em : c3 "meta" = c "meta")
    by (rewrite (Hc3 "meta"), (Hc2 "meta"), (Hc1 "meta"), (Hc0 "meta"); done).
  unfold seeding. rewrite Et, Es, Ep, Hm, Em, <- Es0, <- Ep0, <- (Hc0 "testimonial").
  repeat split; try assumption.
  - by exists oid, t.
  - intros n Hn. rewrite !not_elem_of_cons in Hn. destruct Hn as (? & ? & ? & ? & _).
    by rewrite Hc4, Hc3, Hc2, Hc1, Hc0.
Qed.

(** A run that finds the marker changes no collection. *)
Lemma spec_seed_again K c :
  has_marker (c "meta") ->
  spec (holds K c) ensure_seed_data (fun _ w => holds K c w) (fun _ _ => ~ K).
Proof.
  intros Hdone . unfold ensure_seed_data. apply spec_if_handle.
  eapply spec_bind_holds; [ apply spec_find_marker | ].
  intros o c0 (Hguard & Hc0). simpl in Hc0.
  apply Hguard in Hdone. rewrite Hdone.
  apply spec_ret. intros w Hw. by apply (holds_ext K c0 c).
Qed.

Lemma seeding_ext c c1 c2 :
  (forall n, c1 n = c2 n) -> seeding c c1 -> seeding c c2.
Proof.
  intros Hc (Ht & Hs & Hp & Hm & Hf). unfold seeding.
  rewrite <- !Hc. repeat split; try assumption.
  intros n Hn. rewrite <- Hc. by apply Hf.
Qed.

(** One run from a world without the marker. *)
Lemma seed_run_fresh w :
  handle w = true -> ~ has_marker (coll w "meta") ->
  match ensure_seed_data w with
  | (Ok _, w') =>
      handle w' = true /\ (calm w -> calm w') /\ marker_written w' /\
      seeding (coll w) (coll w')
  | (Raise _, _) => ~ calm w
  end.
Proof.
  intros Hh Hfresh.
  assert (Hw : holds (calm w) (coll w) w) by (repeat split; auto).
  pose proof (spec_seed_fresh (calm w) (coll w) Hfresh w Hw) as H.
  destruct (ensure_seed_data w) as [[a|e] w']; [ | exact H ].
  destruct H as (c' & ((Hh' & Hk' & Hc') & Hlast) & Hseed).
  split; [ exact Hh' | ]. split; [ exact Hk' | ]. split; [ exact Hlast | ].
  apply (seeding_ext _ c'); [ by intros n; rewrite Hc' | exact Hseed ].
Qed.

(** One run from a world with the marker. *)
Lemma seed_run_again w :
  handle w = true -> has_marker (coll w "meta") ->
  match ensure_seed_data w with
  | (Ok _, w') =>
      handle w' = true /\ (calm w -> calm w') /\ forall n, coll w' n = coll w n
  | (Raise _, _) => ~ calm w
  end.
Proof.
  intros Hh Hdone.
  assert (Hw : holds (calm w) (coll w) w) by (repeat split; auto).
  pose proof (spec_seed_again (calm w) (coll w) Hdone w Hw) as H.
  destruct (ensure_seed_data w) as [[a|e] w']; exact H.
Qed.

Lemma marker_key oid t :
  (<["_id" := VOid oid]> (seed_marker t) : doc) !! "key" = Some (VStr SEED_RUN_FLAG).
Proof.
  rewrite lookup_insert_ne by done. unfold seed_marker. by rewrite lookup_insert_eq.
Qed.

(** C1.  Seeding is idempotent on the record counts: from an empty database
    behind an established handle, with no database call failing, the seed
    routine run once leaves 3 testimonials, 5 services, 1 post and 1 marker
    record, and run a second time leaves exactly the same counts. *)
Theorem seed_twice_same_counts (w : world) :
  handle w = true -> calm w -> empty_db w ->
  exists w1 w2,
    ensure_seed_data w = (Ok tt, w1) /\
    ensure_seed_data w1 = (Ok tt, w2) /\
    record_counts w1 = (3, 5, 1, 1) /\
    record_counts w2 = record_counts w1.
Proof.
  intros Hh Hcalm (Et & Es & Ep & Em).
  assert (Hfresh : ~ has_marker (coll w "meta")).
  { rewrite Em. unfold has_marker. intros H. by apply Exists_nil in H. }
  pose proof (seed_run_fresh w Hh Hfresh) as H1.
  destruct (ensure_seed_data w) as [[[]|e] w1] eqn:Hrun1; [ | by destruct H1 ].
  destruct H1 as (Hh1 & Hc1 & _ & Ht & Hs & (t & Hp) & (oid & t' & Hm) & _).
  rewrite Et in Ht. rewrite Es in Hs. rewrite Ep in Hp. rewrite Em in Hm.
  simpl in Ht, Hs, Hp, Hm.
  assert (Hdone : has_marker (coll w1 "meta")).
  { rewrite Hm. unfold has_marker. apply Exists_cons. left. apply marker_key. }
  pose proof (seed_run_again w1 Hh1 Hdone) as H2.
  destruct (ensure_seed_data w1) as [[[]|e] w2] eqn:Hrun2; [ | destruct H2; auto ].
  destruct H2 as (_ & _ & Hsame).
  exists w1, w2. split; [ reflexivity | ]. split; [ exact Hrun2 | ]. split.
  - unfold record_counts.
    apply Forall2_length in Ht, Hs, Hp. rewrite <- Ht, <- Hs, <- Hp, Hm.
    rewrite filter_cons_True by apply marker_key. reflexivity.
  - unfold record_counts. by rewrite !Hsame.
Qed.

Lemma seed_twice_same_counts_witness :
  exists w1 w2,
    ensure_seed_data fresh_world = (Ok tt, w1) /\
    ensure_seed_data w1 = (Ok tt, w2) /\
    record_counts w1 = (3, 5, 1, 1) /\
    record_counts w2 = record_counts w1.
Proof.
  apply (seed_twice_same_counts fresh_world).
  - reflexivity.
  - constructor.
  - repeat split.
Defined.

Lemma no_marker_nil : ~ has_marker [].
Proof. unfold has_marker. intros H. by apply Exists_nil in H. Qed.

(** With no database call failing, a run from a world without the marker
    returns. *)
Lemma seed_completes w :
  handle w = true -> ~ has_marker (coll w "meta") -> calm w ->
  exists w', ensure_seed_data w = (Ok tt, w').
Proof.
  intros Hh Hfresh Hcalm. pose proof (seed_run_fresh w Hh Hfresh) as H.
  destruct (ensure_seed_data w) as [[[]|e] w']; [ by exists w' | by destruct H ].
Qed.

Lemma seeded_with_cons seeds old new : old <> [] -> seeded_with seeds old new -> new = old.
Proof. by destruct old. Qed.

(** C2.  Seeding is decided collection by collection.  From a world with
    the handle established and no marker, in which the testimonial
    collection already holds a record: the run returns when no database
    call fails, and every run that returns has left the testimonials as
    they were, has filled the service collection with the five seed services
    if it was empty and left it alone if it was not, and likewise the post
    collection with the welcome post. *)
Theorem seeding_per_collection (w : world) :
  handle w = true -> ~ has_marker (coll w "meta") -> coll w "testimonial" <> [] ->
  (calm w -> exists w', ensure_seed_data w = (Ok tt, w')) /\
  forall w', ensure_seed_data w = (Ok tt, w') ->
    coll w' "testimonial" = coll w "testimonial" /\
    (coll w "service" = [] ->
       Forall2 stored_as (model_dump <$> services) (coll w' "service")) /\
    (coll w "service" <> [] -> coll w' "service" = coll w "service") /\
    (coll w "post" = [] ->
       exists t, Forall2 stored_as [model_dump (welcome_post t)] (coll w' "post")) /\
    (coll w "post" <> [] -> coll w' "post" = coll w "post").
Proof.
  intros Hh Hfresh Hne. split; [ by apply seed_completes | ].
  intros w' Hrun. pose proof (seed_run_fresh w Hh Hfresh) as H.
  rewrite Hrun in H. destruct H as (_ & _ & _ & Ht & Hs & (t & Hp) & _).
  split; [ by apply (seeded_with_cons _ _ _ Hne Ht) | ].
  split; [ intros E; rewrite E in Hs; exact Hs | ].
  split; [ intros E; by apply (seeded_with_cons _ _ _ E Hs) | ].
  split; [ intros E; rewrite E in Hp; by exists t | ].
  intros E. by apply (seeded_with_cons _ _ _ E Hp).
Qed.

Lemma seeding_per_collection_witness :
  (calm one_testimonial_world ->
     exists w', ensure_seed_data one_testimonial_world = (Ok tt, w')) /\
  forall w', ensure_seed_data one_testimonial_world = (Ok tt, w') ->
    coll w' "testimonial" = coll one_testimonial_world "testimonial" /\
    (coll one_testimonial_world "service" = [] ->
       Forall2 stored_as (model_dump <$> services) (coll w' "service")) /\
    (coll one_testimonial_world "service" <> [] ->
       coll w' "service" = coll one_testimonial_world "service") /\
    (coll one_testimonial_world "post" = [] ->
       exists t, Forall2 stored_as [model_dump (welcome_post t)] (coll w' "post")) /\
    (coll one_testimonial_world "post" <> [] ->
       coll w' "post" = coll one_testimonial_world "post").
Proof.
  apply (seeding_per_collection one_testimonial_world).
  - reflexivity.
  - exact no_marker_nil.
  - intros H. vm_compute in H. discriminate H.
Defined.

(** C3.  The marker is written whatever the content collections held.  From
    a world with the handle established and no marker: the run returns when
    no database call fails, and every run that returns has ended with the
    insertion of the marker record at the end of the metadata collection. *)
Theorem marker_written_after_seeding (w : world) :
  handle w = true -> ~ has_marker (coll w "meta") ->
  (calm w -> exists w', ensure_seed_data w = (Ok tt, w')) /\
  forall w', ensure_seed_data w = (Ok tt, w') ->
    marker_written w' /\
    (exists oid t,
       coll w' "meta" = coll w "meta" ++ [<["_id" := VOid oid]> (seed_marker t)]) /\
    has_marker (coll w' "meta").
Proof.
  intros Hh Hfresh. split; [ by apply seed_completes | ].
  intros w' Hrun. pose proof (seed_run_fresh w Hh Hfresh) as H.
  rewrite Hrun in H. destruct H as (_ & _ & Hlast & _ & _ & _ & (oid & t & Hm) & _).
  split; [ exact Hlast | ]. split; [ by exists oid, t | ].
  rewrite Hm. unfold has_marker. apply Exists_app. right.
  apply Exists_cons. left. apply marker_key.
Qed.

Lemma marker_written_after_seeding_witness :
  (calm one_testimonial_world ->
     exists w', ensure_seed_data one_testimonial_world = (Ok tt, w')) /\
  forall w', ensure_seed_data one_testimonial_world = (Ok tt, w') ->
    marker_written w' /\
    (exists oid t,
       coll w' "meta" =
       coll one_testimonial_world "meta" ++ [<["_id" := VOid oid]> (seed_marker t)]) /\
    has_marker (coll w' "meta").
Proof.
  apply (marker_written_after_seeding one_testimonial_world).
  - reflexivity.
  - exact no_marker_nil.
Defined.

(** *** Runs in which database calls may fail *)

Lemma spec_raise {A} (P : world -> Prop) (e : exn) (Q : A -> world -> Prop) E :
  (forall w, P w -> E e w) -> spec P (raise e) Q E.
Proof. intros H w Hw. simpl. auto. Qed.

Lemma spec_cond {A} (P : world -> Prop) (b : world -> bool) (m1 m2 : py A) Q E :
  spec P m1 Q E -> spec P m2 Q E ->
  spec P (fun w => if b w then m1 w else m2 w) Q E.
Proof. intros H1 H2 w Hw. destruct (b w); [ by apply H1 | by apply H2 ]. Qed.

(** A call that only reads leaves the metadata collection alone, whether it
    returns or raises. *)
Lemma keeps_db_read {A} M (f : world -> A) :
  spec (meta_is M) (db_call (fun w => (f w, w)))
       (fun _ => meta_is M) (fun _ => meta_is M).
Proof.
  apply spec_db_call. intros w Hw.
  destruct (pending w) as [|[msg|] rest]; exact Hw.
Qed.

Lemma keeps_utcnow M :
  spec (meta_is M) utcnow (fun _ => meta_is M) (fun _ => meta_is M).
Proof. intros w Hw. exact Hw. Qed.

(** So does the insertion of a record into another collection. *)
Lemma keeps_create {A} `{BaseModel A} M name (x : A) :
  name <> "meta" ->
  spec (meta_is M) (create_document name x ;; ret tt)%py
       (fun _ => meta_is M) (fun _ => meta_is M).
Proof.
  intros Hne. eapply spec_bind; [ | intros s; apply spec_ret; intros w Hw; exact Hw ].
  unfold create_document. apply (spec_cond _ handle).
  - eapply spec_bind; [ | intros oid; apply spec_ret; intros w Hw; exact Hw ].
    apply spec_db_call. intros w Hw.
    destruct (pending w) as [|[msg|] rest]; try exact Hw;
      simpl; unfold meta_is; rewrite coll_store, decide_False by done; exact Hw.
  - apply (spec_raise _ _ _ _). intros w Hw. exact Hw.
Qed.

Lemma keeps_for_each {A} M (l : list A) (body : A -> py unit) :
  (forall x, spec (meta_is M) (body x) (fun _ => meta_is M) (fun _ => meta_is M)) ->
  spec (meta_is M) (for_each l body) (fun _ => meta_is M) (fun _ => meta_is M).
Proof.
  intros Hbody. induction l as [|x l IH]; simpl.
  - apply spec_ret. auto.
  - eapply spec_bind; [ apply Hbody | intros ?; exact IH ].
Qed.

(** The write of the marker: if it raises, the marker is not there. *)
Lemma marker_write_raises M d :
  spec (meta_is M) (insert_one "meta" d ;; ret tt)%py
       (fun _ _ => True) (fun _ => meta_is M).
Proof.
  eapply (spec_bind _ _ _ (fun _ _ => True)); [ | intros oid; by apply spec_ret ].
  apply spec_db_call. intros w Hw.
  destruct (pending w) as [|[msg|] rest]; try exact I. exact Hw.
Qed.

(** A seeding block keeps the metadata collection when its body does. *)
Lemma keeps_block M name (body : py unit) :
  spec (meta_is M) body (fun _ => meta_is M) (fun _ => meta_is M) ->
  spec (meta_is M)
       (let! n := count_documents name ∅ in if Nat.eqb n 0 then body else ret tt)%py
       (fun _ => meta_is M) (fun _ => meta_is M).
Proof.
  intros Hbody. eapply spec_bind; [ apply keeps_db_read | ].
  intros n. destruct (Nat.eqb n 0); [ exact Hbody | ].
  apply spec_ret. auto.
Qed.

(** Whatever fails, a run of the seed routine that raises has not touched
    the metadata collection. *)
Lemma seed_raise_keeps_meta M :
  spec (meta_is M) ensure_seed_data (fun _ _ => True) (fun _ => meta_is M).
Proof.
  unfold ensure_seed_data.
  apply (spec_cond _ (fun w => negb (handle w)) (fun w => (Ok tt, w)));
    [ intros w Hw; exact I | ].
  eapply spec_bind; [ apply keeps_db_read | ].
  intros marker. destruct (doc_truthy marker); [ by apply spec_ret | ].
  eapply spec_bind.
  { apply keeps_block, keeps_for_each. intros x. by apply keeps_create. }
  intros ?. eapply spec_bind.
  { apply keeps_block, keeps_for_each. intros x. by apply keeps_create. }
  intros ?. eapply spec_bind.
  { apply keeps_block. eapply spec_bind; [ apply keeps_utcnow | ].
    intros now. by apply keeps_create. }
  intros ?. eapply spec_bind; [ apply keeps_utcnow | ].
  intros now. apply marker_write_raises.
Qed.

(** C9.  The marker is written last.  If a run of the seed routine raises,
    whatever the step that failed, the metadata collection is as it was
    before the run, so a world without the marker is left without it and
    the next run will seed again; and the startup hook returns normally in
    the world the failed run left behind. *)
Theorem failed_seeding_leaves_no_marker (w w' : world) (e : exn) :
  ensure_seed_data w = (Raise e, w') ->
  ~ has_marker (coll w "meta") ->
  coll w' "meta" = coll w "meta" /\
  ~ has_marker (coll w' "meta") /\
  startup_event w = (Ok tt, w').
Proof.
  intros Hrun Hfresh.
  pose proof (seed_raise_keeps_meta (coll w "meta") w eq_refl) as H.
  rewrite Hrun in H. unfold meta_is in H.
  split; [ exact H | ]. split; [ by rewrite H | ].
  unfold startup_event, try_except. by rewrite Hrun.
Qed.

Lemma failed_seeding_leaves_no_marker_witness :
  coll (ensure_seed_data failing_world).2 "meta" = coll failing_world "meta" /\
  ~ has_marker (coll (ensure_seed_data failing_world).2 "meta") /\
  startup_event failing_world = (Ok tt, (ensure_seed_data failing_world).2).
Proof.
  apply (failed_seeding_leaves_no_marker failing_world _ (Exception "connection lost")).
  - vm_compute. reflexivity.
  - exact no_marker_nil.
Defined.

(** ** The listing endpoints *)

Lemma get_documents_ok name q w :
  next_call_ok w = true ->
  get_documents name q w =
  (Ok (filter (fun d => matches q d = true) (coll w name)), advance w).
Proof.
  unfold next_call_ok, get_documents, find, db_call.
  destruct (handle w); [ | done ]. by destruct (pending w) as [|[msg|] rest].
Qed.

Lemma get_documents_fail name q w :
  next_call_ok w = false ->
  exists msg w', get_documents name q w = (Raise (Exception msg), w').
Proof.
  unfold next_call_ok, get_documents, find, db_call.
  destruct (handle w); [ | by eexists _, _ ].
  destruct (pending w) as [|[msg|] rest]; try done. by eexists _, _.
Qed.

Lemma query_listing_ok name q w :
  next_call_ok w = true ->
  query_listing name q w =
  (Ok (map (delete "_id") (filter (fun d => matches q d = true) (coll w name))),
   advance w).
Proof.
  intros H. unfold query_listing, try_except, bind.
  by rewrite (get_documents_ok name q w H).
Qed.

Lemma query_listing_fail name q w :
  next_call_ok w = false ->
  exists msg w', query_listing name q w = (Raise (HTTPException 500 msg), w').
Proof.
  intros H. destruct (get_documents_fail name q w H) as (msg & w' & E).
  unfold query_listing, try_except, bind. rewrite E. by eexists _, _.
Qed.

(** Every listing handler is a filtered query. *)
Lemma listing_is_query (r : listing) :
  exists name q, route_listing r = serve JsonList (query_listing name q).
Proof. destruct r as [f|c|t]; by eexists _, _. Qed.

Lemma filter_no_filter (l : list doc) :
  filter (fun d => matches ∅ d = true) l = l.
Proof.
  induction l as [|d l IH]; [ done | ].
  rewrite filter_cons_True; [ by f_equal | ].
  unfold matches. apply bool_decide_eq_true. apply map_Forall_empty.
Qed.

Lemma matches_field (k : string) (v : value) (d : doc) :
  matches {[ k := Is v ]} d = true <-> d !! k = Some v.
Proof.
  unfold matches. rewrite bool_decide_eq_true, map_Forall_singleton.
  simpl. destruct (d !! k) as [x|]; simpl; [ | done ].
  rewrite bool_decide_eq_true. split; congruence.
Qed.

(** C7.  No listing response carries the internal identifier: whenever one
    of GET /api/testimonials, /api/services and /api/posts answers with
    status 200, the body is a list of records none of which has an [_id]
    field. *)
Theorem listing_strips_internal_id (r : listing) (w : world) :
  status (route_listing r w).1 = 200%Z ->
  exists l, body (route_listing r w).1 = JsonList l /\
            Forall (fun d : doc => d !! "_id" = None) l.
Proof.
  destruct (listing_is_query r) as (name & q & ->). unfold serve.
  destruct (next_call_ok w) eqn:Hok.
  - rewrite (query_listing_ok name q w Hok). simpl. intros _.
    eexists. split; [ reflexivity | ].
    apply Forall_map. apply Forall_forall. intros d _. simpl.
    apply lookup_delete_eq.
  - destruct (query_listing_fail name q w Hok) as (msg & w' & ->). simpl. discriminate.
Qed.

Lemma listing_strips_internal_id_witness :
  exists l, body (route_listing (Services (Some "Cosmetic")) seeded_world).1 = JsonList l /\
            Forall (fun d : doc => d !! "_id" = None) l.
Proof.
  apply (listing_strips_internal_id (Services (Some "Cosmetic")) seeded_world).
  vm_compute. reflexivity.
Defined.

Lemma filter_by_field (k : string) (v : value) (l : list doc) :
  filter (fun d => matches {[ k := Is v ]} d = true) l =
  filter (fun d : doc => d !! k = Some v) l.
Proof. apply list_filter_iff. intros d. apply matches_field. Qed.

Lemma Forall_field_after_strip (k : string) (v : value) (l : list doc) :
  k <> "_id" ->
  Forall (fun d : doc => d !! k = Some v)
         (map (delete "_id") (filter (fun d : doc => d !! k = Some v) l)).
Proof.
  intros Hk. apply Forall_map, Forall_forall. intros d Hd. simpl.
  apply list_elem_of_filter in Hd as [Hd _]. by rewrite lookup_delete_ne.
Qed.

Lemma filter_none_matching (k : string) (v : value) (l : list doc) :
  Forall (fun d : doc => d !! k <> Some v) l ->
  filter (fun d : doc => d !! k = Some v) l = [].
Proof.
  induction 1 as [|d l Hd _ IH]; [ done | ].
  by rewrite filter_cons_False.
Qed.

Lemma query_listing_all (name : string) (w : world) :
  next_call_ok w = true ->
  query_listing name ∅ w = (Ok (map (delete "_id") (coll w name)), advance w).
Proof. intros Hok. by rewrite (query_listing_ok name ∅ w Hok), filter_no_filter. Qed.

Example seeded_world_ready : next_call_ok seeded_world = true.
Proof. vm_compute. reflexivity. Qed.

Example seeded_first_service :
  match coll seeded_world "service" with
  | d :: _ => d !! "category"
  | [] => None
  end = Some (VStr "General").
Proof. vm_compute. reflexivity. Qed.

(** The claim C6 as it is written fails for the empty category: the request
    is answered with every service, although no service has the empty
    string as its category. *)
Lemma services_empty_category_counterexample :
  ~ (forall (w : world) (c : string),
       status (route_services (Some c) w).1 = 200%Z ->
       forall l, body (route_services (Some c) w).1 = JsonList l ->
                 Forall (fun d : doc => d !! "category" = Some (VStr c)) l).
Proof.
  intros H. specialize (H seeded_world "").
  unfold route_services, serve in H.
  change (get_services (Some "")) with (query_listing "service" ∅) in H.
  rewrite (query_listing_all "service" seeded_world seeded_world_ready) in H.
  specialize (H eq_refl _ eq_refl).
  pose proof seeded_first_service as Hfirst.
  destruct (coll seeded_world "service") as [|d rest]; [ discriminate Hfirst | ].
  rewrite map_cons in H. apply Forall_cons in H as [H _].
  rewrite lookup_delete_ne in H by done. congruence.
Qed.

(** C6, amended.  For a category that is given and not the empty string, the
    handler queries the service collection with the filter
    [{category: value}]; with the parameter left out it queries with no
    filter.  When the query does not fail, the handler returns to the first
    exactly the services whose category equals the value, stripped of their
    identifiers, which is the empty list and not an exception when no
    service has that category, and to the second every service. *)
Theorem services_by_category (w : world) (c : string) :
  c <> "" -> next_call_ok w = true ->
  get_services (Some c) = query_listing "service" {[ "category" := Is (VStr c) ]} /\
  get_services None = query_listing "service" ∅ /\
  (exists l,
     get_services (Some c) w = (Ok l, advance w) /\
     l = map (delete "_id")
           (filter (fun d : doc => d !! "category" = Some (VStr c)) (coll w "service")) /\
     Forall (fun d : doc => d !! "category" = Some (VStr c)) l /\
     (Forall (fun d : doc => d !! "category" <> Some (VStr c)) (coll w "service") ->
      l = [])) /\
  get_services None w = (Ok (map (delete "_id") (coll w "service")), advance w).
Proof.
  intros Hc Hok.
  assert (Hq : get_services (Some c) =
               query_listing "service" {[ "category" := Is (VStr c) ]}).
  { unfold get_services, query_listing, str_truthy.
    by rewrite bool_decide_eq_false_2. }
  split; [ exact Hq | ]. split; [ reflexivity | ]. split.
  - eexists. split; [ | split; [ reflexivity | split ] ].
    + rewrite Hq, (query_listing_ok _ _ w Hok). by rewrite filter_by_field.
    + by apply Forall_field_after_strip.
    + intros Hnone. by rewrite filter_none_matching.
  - change (get_services None) with (query_listing "service" ∅).
    by apply query_listing_all.
Qed.

Lemma services_by_category_witness :
  get_services (Some "Cosmetic") =
    query_listing "service" {[ "category" := Is (VStr "Cosmetic") ]} /\
  get_services None = query_listing "service" ∅ /\
  (exists l,
     get_services (Some "Cosmetic") seeded_world = (Ok l, advance seeded_world) /\
     l = map (delete "_id")
           (filter (fun d : doc => d !! "category" = Some (VStr "Cosmetic"))
                   (coll seeded_world "service")) /\
     Forall (fun d : doc => d !! "category" = Some (VStr "Cosmetic")) l /\
     (Forall (fun d : doc => d !! "category" <> Some (VStr "Cosmetic"))
             (coll seeded_world "service") ->
      l = [])) /\
  get_services None seeded_world =
    (Ok (map (delete "_id") (coll seeded_world "service")), advance seeded_world).
Proof.
  apply (services_by_category seeded_world "Cosmetic").
  - discriminate.
  - exact seeded_world_ready.
Defined.

(** C10.  An empty category and an empty tag are no filter at all: the
    handlers then run the very query they run when the parameter is left
    out, the one with the empty filter, so the routes answer the two
    requests alike, and when that query does not fail the handlers return
    every record of the collection, stripped of its identifier. *)
Theorem empty_parameter_is_no_filter (w : world) :
  next_call_ok w = true ->
  get_services (Some "") = get_services None /\
  get_posts (Some "") = get_posts None /\
  get_services (Some "") = query_listing "service" ∅ /\
  get_posts (Some "") = query_listing "post" ∅ /\
  route_services (Some "") = route_services None /\
  route_posts (Some "") = route_posts None /\
  get_services (Some "") w = (Ok (map (delete "_id") (coll w "service")), advance w) /\
  get_posts (Some "") w = (Ok (map (delete "_id") (coll w "post")), advance w).
Proof.
  intros Hok. repeat (split; [ reflexivity | ]).
  change (get_services (Some "")) with (query_listing "service" ∅).
  change (get_posts (Some "")) with (query_listing "post" ∅).
  split; by apply query_listing_all.
Qed.

Lemma empty_parameter_is_no_filter_witness :
  get_services (Some "") = get_services None /\
  get_posts (Some "") = get_posts None /\
  get_services (Some "") = query_listing "service" ∅ /\
  get_posts (Some "") = query_listing "post" ∅ /\
  route_services (Some "") = route_services None /\
  route_posts (Some "") = route_posts None /\
  get_services (Some "") seeded_world
    = (Ok (map (delete "_id") (coll seeded_world "service")), advance seeded_world) /\
  get_posts (Some "") seeded_world
    = (Ok (map (delete "_id") (coll seeded_world "post")), advance seeded_world).
Proof.
  apply (empty_parameter_is_no_filter seeded_world).
  exact seeded_world_ready.
Defined.

(** ** The diagnostic probe *)

(** C8.  The probe never answers with an error.  In every world, with or
    without a database handle and whatever the fate of the database call,
    [test_database] returns, GET /test answers with status 200, the report
    has exactly its six fields, and its [database] field is a string that
    says whether the database works, the handle is missing, or the call
    failed and with which message. *)
Theorem probe_always_answers (w : world) :
  exists (r : doc) (w' : world),
    test_database w = (Ok r, w') /\
    route_test w = (Response 200 (Json r), w') /\
    dom r = report_fields /\
    r !! "database" = Some (VStr (database_status w)).
Proof.
  unfold route_test, serve, test_database, test_database_try, database_status.
  destruct (handle w).
  - unfold list_collection_names, db_call.
    destruct (pending w) as [|[msg|] rest]; simpl;
      eexists _, _; (split; [ reflexivity | ]); (split; [ reflexivity | ]);
      (split; [ rewrite !dom_insert_L, dom_empty_L; unfold report_fields; set_solver
              | by rewrite lookup_insert_eq ]).
  - eexists _, _. split; [ reflexivity | ]. split; [ reflexivity | ].
    split; [ rewrite !dom_insert_L, dom_empty_L; unfold report_fields; set_solver
           | by rewrite lookup_insert_eq ].
Qed.

(** ** The appointment endpoint *)

Example plain_address_accepts : plain_address "jane@example.com" = Some "jane@example.com".
Proof. reflexivity. Qed.

Example plain_address_rejects : plain_address "not-an-email" = None.
Proof. reflexivity. Qed.

Example plain_address_lowers : plain_address "Jane@EXAMPLE.COM" = Some "Jane@example.com".
Proof. reflexivity. Qed.

Section Appointment.

Variable EmailStr : string -> option string.

(** A body is accepted exactly when each of its eight fields is. *)
Lemma model_validate_fields (body : gmap string json) (r : AppointmentRequest.t) :
  model_validate EmailStr body = Some r ->
  required body "full_name" = Some (AppointmentRequest.full_name r) /\
  defaulted (email_field EmailStr) None body "email" = Some (AppointmentRequest.email r) /\
  required body "phone" = Some (AppointmentRequest.phone r) /\
  defaulted str_field None body "preferred_date"
    = Some (AppointmentRequest.preferred_date r) /\
  defaulted str_field None body "preferred_time"
    = Some (AppointmentRequest.preferred_time r) /\
  defaulted str_field None body "service_type"
    = Some (AppointmentRequest.service_type r) /\
  defaulted str_field None body "message" = Some (AppointmentRequest.message r) /\
  defaulted str_field (Some "website") body "source"
    = Some (AppointmentRequest.source r).
Proof.
  unfold model_validate. intros H.
  destruct (required body "full_name"); [ | done ].
  destruct (defaulted (email_field EmailStr) None body "email"); [ | done ].
  destruct (required body "phone"); [ | done ].
  destruct (defaulted str_field None body "preferred_date"); [ | done ].
  destruct (defaulted str_field None body "preferred_time"); [ | done ].
  destruct (defaulted str_field None body "service_type"); [ | done ].
  destruct (defaulted str_field None body "message"); [ | done ].
  destruct (defaulted str_field (Some "website") body "source"); [ | done ].
  simpl in H. by injection H as <-.
Qed.

Lemma required_None body k j :
  body !! k = Some j -> ~ is_text j -> required body k = None.
Proof.
  intros Hk Hj. unfold required. rewrite Hk. simpl.
  destruct j; try done. exfalso. apply Hj. by eexists.
Qed.

Lemma defaulted_None inner dflt body k j :
  body !! k = Some j -> j <> JNull -> inner j = None ->
  defaulted inner dflt body k = None.
Proof.
  intros Hk Hnull Hj. unfold defaulted, optional. rewrite Hk, Hj.
  by destruct j.
Qed.

Lemma str_field_None j : ~ is_text j -> str_field j = None.
Proof. intros Hj. destruct j; try done. exfalso. apply Hj. by eexists. Qed.

Lemma email_field_None j : ~ is_text j -> email_field EmailStr j = None.
Proof. intros Hj. destruct j; try done. exfalso. apply Hj. by eexists. Qed.

(** A body that breaks a constraint is not accepted. *)
Lemma violates_rejected (body : gmap string json) :
  violates EmailStr body -> model_validate EmailStr body = None.
Proof.
  intros Hv. destruct (model_validate EmailStr body) as [r|] eqn:Hr; [ | done ].
  exfalso. apply model_validate_fields in Hr.
  destruct Hr as (Hfull & Hemail & Hphone & Hdate & Htime & Hserv & Hmsg & Hsrc).
  destruct Hv as [k Hk Hb | k j Hk Hb Hj | s Hb Hs | k j Hk Hb Hnull Hj].
  - unfold required in Hfull, Hphone.
    set_unfold in Hk. destruct Hk as [->|[->|[]]]; by rewrite Hb in *.
  - pose proof (required_None body k j Hb Hj) as Hn.
    set_unfold in Hk. destruct Hk as [->|[->|[]]]; congruence.
  - rewrite (defaulted_None _ _ _ _ _ Hb) in Hemail; done.
  - set_unfold in Hk.
    destruct Hk as [->|[->|[->|[->|[->|[->|[]]]]]]];
      [ rewrite (defaulted_None _ _ _ _ _ Hb Hnull (email_field_None j Hj)) in Hemail
      | rewrite (defaulted_None _ _ _ _ _ Hb Hnull (str_field_None j Hj)) in Hdate
      | rewrite (defaulted_None _ _ _ _ _ Hb Hnull (str_field_None j Hj)) in Htime
      | rewrite (defaulted_None _ _ _ _ _ Hb Hnull (str_field_None j Hj)) in Hserv
      | rewrite (defaulted_None _ _ _ _ _ Hb Hnull (str_field_None j Hj)) in Hmsg
      | rewrite (defaulted_None _ _ _ _ _ Hb Hnull (str_field_None j Hj)) in Hsrc ];
      done.
Qed.

(** And a body that is not accepted breaks a constraint. *)
Lemma rejected_violates (body : gmap string json) :
  model_validate EmailStr body = None -> violates EmailStr body.
Proof.
  assert (Hreq : forall k, k ∈ ["full_name"; "phone"] ->
            required body k = None -> violates EmailStr body).
  { intros k Hk. unfold required. destruct (body !! k) as [j|] eqn:Hb.
    - simpl. intros Hj. apply (required_not_text _ _ k j Hk Hb).
      intros [s ->]. discriminate Hj.
    - intros _. by apply (required_missing _ _ k). }
  assert (Hopt : forall k dflt,
            k ∈ ["email"; "preferred_date"; "preferred_time"; "service_type";
                 "message"; "source"] ->
            defaulted str_field dflt body k = None -> violates EmailStr body).
  { intros k dflt Hk. unfold defaulted, optional.
    destruct (body !! k) as [j|] eqn:Hb; [ | done ].
    intros Hj. apply (optional_not_text _ _ k j Hk Hb).
    - by intros ->.
    - intros [s ->]. discriminate Hj. }
  unfold model_validate.
  destruct (required body "full_name") eqn:E1; [ | intros _; apply (Hreq "full_name"); [ set_solver | done ] ].
  destruct (defaulted (email_field EmailStr) None body "email") eqn:E2.
  2:{ intros _. revert E2. unfold defaulted, optional.
      destruct (body !! "email") as [j|] eqn:Hb; [ | done ].
      destruct j as [| b | z | addr | items | members ]; try done;
        try (intros _; apply (optional_not_text _ _ "email" _ ltac:(set_solver) Hb);
             [ done | by intros [s' ?] ]).
      simpl. destruct (EmailStr addr) eqn:Hs; [ done | ].
      intros _. by apply (email_malformed _ _ addr). }
  destruct (required body "phone") eqn:E3; [ | intros _; apply (Hreq "phone"); [ set_solver | done ] ].
  destruct (defaulted str_field None body "preferred_date") eqn:E4;
    [ | intros _; apply (Hopt "preferred_date" None); [ set_solver | done ] ].
  destruct (defaulted str_field None body "preferred_time") eqn:E5;
    [ | intros _; apply (Hopt "preferred_time" None); [ set_solver | done ] ].
  destruct (defaulted str_field None body "service_type") eqn:E6;
    [ | intros _; apply (Hopt "service_type" None); [ set_solver | done ] ].
  destruct (defaulted str_field None body "message") eqn:E7;
    [ | intros _; apply (Hopt "message" None); [ set_solver | done ] ].
  destruct (defaulted str_field (Some "website") body "source") eqn:E8;
    [ done | intros _; apply (Hopt "source" (Some "website")); [ set_solver | done ] ].
Qed.

(** C4.  A body that breaks a field constraint of the schema, such as a
    missing phone or an email the validation rejects, is answered with
    status 422, a client error, and the world is left exactly as it was:
    nothing is inserted and no database call is made. *)
Theorem invalid_body_rejected (body : gmap string json) (w : world) :
  violates EmailStr body ->
  route_appointment EmailStr body w = (Response 422 RequestValidationError, w) /\
  client_error (route_appointment EmailStr body w).1 = true /\
  coll (route_appointment EmailStr body w).2 "appointmentrequest"
    = coll w "appointmentrequest".
Proof.
  intros Hv. unfold route_appointment. by rewrite (violates_rejected body Hv).
Qed.

End Appointment.

Lemma invalid_body_rejected_witness :
  route_appointment plain_address body_without_phone seeded_world
    = (Response 422 RequestValidationError, seeded_world) /\
  client_error (route_appointment plain_address body_without_phone seeded_world).1 = true /\
  coll (route_appointment plain_address body_without_phone seeded_world).2
       "appointmentrequest"
    = coll seeded_world "appointmentrequest".
Proof.
  apply (invalid_body_rejected plain_address body_without_phone seeded_world).
  apply (required_missing _ _ "phone").
  - apply list_elem_of_further, list_elem_of_here.
  - reflexivity.
Defined.

Example bad_email_violates : violates plain_address body_bad_email.
Proof. by apply (email_malformed _ _ "not-an-email"). Qed.

(** The request with the malformed email is turned away at the door. *)
Example bad_email_rejected (w : world) :
  route_appointment plain_address body_bad_email w
  = (Response 422 RequestValidationError, w).
Proof.
  unfold route_appointment.
  by rewrite (violates_rejected plain_address body_bad_email bad_email_violates).
Qed.

Lemma hex_fixed_nonempty (k : nat) (n : N) : hex_fixed (S k) n <> "".
Proof. cbn [hex_fixed]. destruct (hex_fixed k (n / 16)); discriminate. Qed.

Lemma oid_str_nonempty (n : N) : oid_str n <> "".
Proof. apply hex_fixed_nonempty. Qed.

Lemma create_appointment_ok (request : AppointmentRequest.t) (w : world) :
  next_call_ok w = true ->
  create_appointment request w =
  (Ok (<["id" := VStr (oid_str (next_oid w))]> (<["success" := VBool true]> ∅)),
   store "appointmentrequest" (model_dump request) (advance w)).
Proof.
  unfold next_call_ok, create_appointment, try_except, create_document, bind,
    insert_one, db_call.
  destruct (handle w); [ | done ]. cbv beta.
  by destruct (pending w) as [|[msg|] rest].
Qed.

Lemma create_appointment_fail (request : AppointmentRequest.t) (w : world) :
  next_call_ok w = false ->
  exists msg w', create_appointment request w = (Raise (HTTPException 500 msg), w') /\
                 forall n, coll w' n = coll w n.
Proof.
  unfold next_call_ok, create_appointment, try_except, create_document, bind,
    insert_one, db_call.
  destruct (handle w); [ | by eexists _, _ ]. cbv beta.
  destruct (pending w) as [|[msg|] rest]; try done. by eexists _, _.
Qed.

Lemma defaulted_str_stored dflt body k j o :
  defaulted str_field dflt body k = Some o -> body !! k = Some j ->
  Some (opt_str o) = json_value j.
Proof.
  unfold defaulted, optional. intros H Hb. rewrite Hb in H.
  destruct j; simpl in H; by simplify_eq.
Qed.

Lemma required_stored body k j s :
  required body k = Some s -> body !! k = Some j -> Some (VStr s) = json_value j.
Proof.
  unfold required. intros H Hb. rewrite Hb in H. simpl in H.
  destruct j; simpl in H; by simplify_eq.
Qed.

Example body_jane_valid : model_validate plain_address body_jane = Some request_jane.
Proof. vm_compute. reflexivity. Qed.

Example body_jane_email : body_jane !! "email" = Some (JStr "jane@EXAMPLE.COM").
Proof. vm_compute. reflexivity. Qed.

Example request_jane_email :
  (<["_id" := VOid 0]> (model_dump request_jane) : doc) !! "email"
  = Some (VStr "jane@example.com").
Proof. vm_compute. reflexivity. Qed.

(** The claim C5 as it is written fails in two ways.  A valid body is not
    always answered with success: when the insertion raises, the answer is
    a server error.  And the stored record does not always hold the
    submitted values: the email is stored as the validation returns it. *)
Lemma appointment_counterexample :
  ~ (forall (EmailStr : string -> option string) (body : gmap string json) (w : world),
       is_Some (model_validate EmailStr body) ->
       status (route_appointment EmailStr body w).1 = 200%Z) /\
  ~ (forall (EmailStr : string -> option string) (body : gmap string json) (w : world),
       is_Some (model_validate EmailStr body) -> next_call_ok w = true ->
       forall stored,
         last (coll (route_appointment EmailStr body w).2 "appointmentrequest")
           = Some stored ->
         submitted_intact body stored).
Proof.
  split.
  - intros H. specialize (H plain_address body_jane down_world).
    unfold route_appointment in H. rewrite body_jane_valid in H.
    specialize (H (mk_is_Some _ _ eq_refl)).
    destruct (create_appointment_fail request_jane down_world eq_refl)
      as (msg & w' & Hfail & _).
    unfold serve in H. rewrite Hfail in H. discriminate H.
  - intros H. specialize (H plain_address body_jane fresh_world).
    unfold route_appointment in H. rewrite body_jane_valid in H.
    specialize (H (mk_is_Some _ _ eq_refl) eq_refl).
    unfold serve in H.
    rewrite (create_appointment_ok request_jane fresh_world eq_refl) in H.
    cbn [snd] in H. rewrite coll_store, decide_True in H by done.
    specialize (H _ (last_snoc _ _) "email" _
                  ltac:(apply list_elem_of_further, list_elem_of_here)
                  body_jane_email).
    change (next_oid (advance fresh_world)) with 0%N in H.
    rewrite request_jane_email in H. discriminate H.
Qed.

(** C5, amended.  For a body the schema accepts, when the database handle is
    established and the insertion does not raise, POST /api/appointment
    answers with status 200, an [id] that is a non-empty string and
    [success] true, and the record is appended to the appointmentrequest
    collection under that identifier.  Every submitted field other than the
    email is stored with the value submitted; the email is stored as the
    address the email validation returns for it, or as none when null was
    submitted. *)
Theorem valid_appointment_stored (EmailStr : string -> option string)
    (body : gmap string json) (request : AppointmentRequest.t) (w : world) :
  model_validate EmailStr body = Some request -> next_call_ok w = true ->
  exists (id : string) (stored : doc) (w' : world),
    route_appointment EmailStr body w =
      (Response 200 (Json (<["id" := VStr id]> (<["success" := VBool true]> ∅))), w') /\
    id <> "" /\ id = oid_str (next_oid w) /\
    stored = <["_id" := VOid (next_oid w)]> (model_dump request) /\
    coll w' "appointmentrequest" = coll w "appointmentrequest" ++ [stored] /\
    (forall k j, k ∈ AppointmentRequest.fields -> k <> "email" ->
                 body !! k = Some j -> stored !! k = json_value j) /\
    (forall j, body !! "email" = Some j ->
       (j = JNull /\ stored !! "email" = Some VNone) \/
       (exists s s', j = JStr s /\ EmailStr s = Some s' /\
                     stored !! "email" = Some (VStr s'))).
Proof.
  intros Hvalid Hok.
  exists (oid_str (next_oid w)),
         (<["_id" := VOid (next_oid w)]> (model_dump request)),
         (store "appointmentrequest" (model_dump request) (advance w)).
  split.
  { unfold route_appointment, serve.
    by rewrite Hvalid, (create_appointment_ok request w Hok). }
  split; [ apply oid_str_nonempty | ]. split; [ reflexivity | ].
  split; [ reflexivity | ].
  split; [ by rewrite coll_store, decide_True | ].
  apply model_validate_fields in Hvalid.
  destruct Hvalid as (Hfull & Hemail & Hphone & Hdate & Htime & Hserv & Hmsg & Hsrc).
  unfold model_dump, AppointmentRequest_model. split.
  - intros k j Hk Hne Hb. unfold AppointmentRequest.fields in Hk.
    set_unfold in Hk.
    destruct Hk as [->|[->|[->|[->|[->|[->|[->|[->|[]]]]]]]]]; [ | done | .. ];
      simplify_map_eq;
      eauto using required_stored, defaulted_str_stored.
  - intros j Hb. simplify_map_eq.
    unfold defaulted, optional in Hemail. rewrite Hb in Hemail.
    destruct j as [| b | z | s | items | members ]; simpl in Hemail; try done.
    + left. injection Hemail as <-. done.
    + right. destruct (EmailStr s) as [s'|] eqn:Hs; simpl in Hemail; [ | done ].
      exists s, s'. injection Hemail as <-. done.
Qed.

Lemma valid_appointment_stored_witness :
  exists (id : string) (stored : doc) (w' : world),
    route_appointment plain_address body_jane fresh_world =
      (Response 200 (Json (<["id" := VStr id]> (<["success" := VBool true]> ∅))), w') /\
    id <> "" /\ id = oid_str (next_oid fresh_world) /\
    stored = <["_id" := VOid (next_oid fresh_world)]> (model_dump request_jane) /\
    coll w' "appointmentrequest" = coll fresh_world "appointmentrequest" ++ [stored] /\
    (forall k j, k ∈ AppointmentRequest.fields -> k <> "email" ->
                 body_jane !! k = Some j -> stored !! k = json_value j) /\
    (forall j, body_jane !! "email" = Some j ->
       (j = JNull /\ stored !! "email" = Some VNone) \/
       (exists s s', j = JStr s /\ plain_address s = Some s' /\
                     stored !! "email" = Some (VStr s'))).
Proof.
  apply (valid_appointment_stored plain_address body_jane request_jane fresh_world).
  - vm_compute. reflexivity.
  - reflexivity.
Defined.

(** ** Further properties of the seed routine *)

Lemma spec_for_each_inv {A} (Inv : world -> Prop) (l : list A) (body : A -> py unit) :
  (forall x, spec Inv (body x) (fun _ => Inv) (fun _ => Inv)) ->
  spec Inv (for_each l body) (fun _ => Inv) (fun _ => Inv).
Proof.
  intros Hbody. induction l as [|x l IH]; simpl.
  - apply spec_ret. auto.
  - eapply spec_bind; [ apply Hbody | intros ?; exact IH ].
Qed.

Lemma stable_db_read {A} (Inv : world -> Prop) (f : world -> A) :
  stable Inv ->
  spec Inv (db_call (fun w => (f w, w))) (fun _ => Inv) (fun _ => Inv).
Proof.
  intros (Hadv & _ & _). apply spec_db_call. intros w Hw.
  destruct (pending w) as [|[msg|] rest]; by apply Hadv.
Qed.

Lemma stable_insert_one (Inv : world -> Prop) name d :
  stable Inv -> name ∈ seed_names ->
  spec Inv (insert_one name d) (fun _ => Inv) (fun _ => Inv).
Proof.
  intros (Hadv & _ & Hstore) Hname. apply spec_db_call. intros w Hw.
  destruct (pending w) as [|[msg|] rest]; simpl; auto.
Qed.

Lemma stable_create {A} `{BaseModel A} (Inv : world -> Prop) name (x : A) :
  stable Inv -> name ∈ seed_names ->
  spec Inv (create_document name x ;; ret tt)%py (fun _ => Inv) (fun _ => Inv).
Proof.
  intros Hst Hname.
  eapply spec_bind; [ | intros s; apply spec_ret; intros w Hw; exact Hw ].
  unfold create_document. apply (spec_cond _ handle).
  - eapply spec_bind; [ by apply stable_insert_one | ].
    intros oid. apply spec_ret. auto.
  - apply (spec_raise _ _ _ _). auto.
Qed.

Lemma stable_utcnow (Inv : world -> Prop) :
  stable Inv -> spec Inv utcnow (fun _ => Inv) (fun _ => Inv).
Proof. intros (_ & Hnow & _) w Hw. exact (Hnow w Hw). Qed.

Lemma stable_block (Inv : world -> Prop) name (body : py unit) :
  stable Inv ->
  spec Inv body (fun _ => Inv) (fun _ => Inv) ->
  spec Inv
       (let! n := count_documents name ∅ in if Nat.eqb n 0 then body else ret tt)%py
       (fun _ => Inv) (fun _ => Inv).
Proof.
  intros Hst Hbody. eapply spec_bind; [ by apply stable_db_read | ].
  intros n. destruct (Nat.eqb n 0); [ exact Hbody | ].
  apply spec_ret. auto.
Qed.

(** The frame rule of the seed routine: a stable property of the world
    holds after a run, whether the run returned or raised. *)
Lemma seed_preserves (Inv : world -> Prop) :
  stable Inv -> spec Inv ensure_seed_data (fun _ => Inv) (fun _ => Inv).
Proof.
  intros Hst. unfold ensure_seed_data.
  apply (spec_cond _ (fun w => negb (handle w)) (fun w => (Ok tt, w)));
    [ intros w Hw; exact Hw | ].
  eapply spec_bind; [ by apply stable_db_read | ].
  intros marker. destruct (doc_truthy marker); [ apply spec_ret; auto | ].
  eapply spec_bind.
  { apply stable_block, spec_for_each_inv; [ done | ].
    intros x. apply stable_create; [ done | set_solver ]. }
  intros ?. eapply spec_bind.
  { apply stable_block, spec_for_each_inv; [ done | ].
    intros x. apply stable_create; [ done | set_solver ]. }
  intros ?. eapply spec_bind.
  { apply stable_block; [ done | ].
    eapply spec_bind; [ by apply stable_utcnow | ].
    intros now. apply stable_create; [ done | set_solver ]. }
  intros ?. eapply spec_bind; [ by apply stable_utcnow | ].
  intros now. eapply spec_bind; [ apply stable_insert_one; [ done | set_solver ] | ].
  intros oid. apply spec_ret. auto.
Qed.

Lemma only_seeded_stable (w0 : world) :
  stable (fun w => only_seeded w0 w /\ handle w = handle w0 /\ environ w = environ w0).
Proof.
  split; [ | split ].
  - intros w H. exact H.
  - intros w H. exact H.
  - intros w name d Hname ((Hpre & Hframe) & Hh & He).
    split; [ split | by split ].
    + intros n. rewrite coll_store. destruct (decide (n = name)) as [->|Hne]; [ | apply Hpre ].
      apply prefix_app_r, Hpre.
    + intros n Hn. rewrite coll_store, decide_False; [ by apply Hframe | ].
      intros ->. by apply Hn.
Qed.

(** X7.  The seed routine never removes or rewrites a record.  After a run,
    returned or raised, whatever the fate of the database calls, every
    collection still begins with the records it held before, and the
    collections other than testimonial, service, post and meta are exactly
    as they were. *)
Theorem seeding_only_appends (w : world) :
  (forall n, coll w n `prefix_of` coll (ensure_seed_data w).2 n) /\
  (forall n, n ∉ seed_names -> coll (ensure_seed_data w).2 n = coll w n).
Proof.
  assert (H0 : only_seeded w w /\ handle w = handle w /\ environ w = environ w).
  { split; [ split | by split ]; [ by intros n | done ]. }
  pose proof (seed_preserves _ (only_seeded_stable w) w H0) as H.
  destruct (ensure_seed_data w) as [[a|e] w']; simpl; exact (proj1 H).
Qed.

Lemma appointments_not_seeded : "appointmentrequest" ∉ seed_names.
Proof.
  unfold seed_names. rewrite !not_elem_of_cons.
  repeat (split; [ discriminate | ]). apply not_elem_of_nil.
Qed.

(** X8.  The startup hook never raises: in every world it returns normally,
    in the world the seed routine left, where records were only appended
    and the appointment requests are untouched. *)
Theorem startup_never_raises (w : world) :
  exists w', startup_event w = (Ok tt, w') /\
             w' = (ensure_seed_data w).2 /\
             (forall n, coll w n `prefix_of` coll w' n) /\
             coll w' "appointmentrequest" = coll w "appointmentrequest".
Proof.
  exists (ensure_seed_data w).2.
  assert (H0 : only_seeded w w /\ handle w = handle w /\ environ w = environ w).
  { split; [ split | by split ]; [ by intros n | done ]. }
  pose proof (seed_preserves _ (only_seeded_stable w) w H0) as H.
  unfold startup_event, try_except.
  destruct (ensure_seed_data w) as [[[]|e] w']; simpl;
    (split; [ reflexivity | ]); (split; [ reflexivity | ]);
    destruct H as ((Hpre & Hframe) & _);
    (split; [ exact Hpre | apply Hframe, appointments_not_seeded ]).
Qed.

Example seeded_world_marked : has_marker (coll seeded_world "meta").
Proof. unfold has_marker. apply (bool_decide_unpack _). vm_compute. exact I. Qed.

(** X6.  The two guards of the seed routine.  Without a database handle the
    routine does nothing at all; with the marker present it makes the one
    call that looks the marker up and stops, whether that call returns or
    raises.  Either way no collection, identifier or clock is touched. *)
Theorem seed_guards_stop (w : world) :
  handle w = false \/ has_marker (coll w "meta") ->
  (ensure_seed_data w).2 = (if handle w then advance w else w).
Proof.
  intros Hguard. unfold ensure_seed_data.
  destruct (handle w) eqn:Hh; [ | reflexivity ].
  destruct Hguard as [Hno|Hmark]; [ discriminate Hno | ].
  change (negb true) with false. cbv iota.
  unfold bind, find_one, db_call.
  destruct (pending w) as [|[msg|] rest] eqn:Hp; [ | reflexivity | ].
  - change (coll (advance w) "meta") with (coll w "meta").
    apply guard_has_marker in Hmark. by rewrite Hmark.
  - change (coll (advance w) "meta") with (coll w "meta").
    apply guard_has_marker in Hmark. by rewrite Hmark.
Qed.

Lemma seed_guards_stop_witness :
  (ensure_seed_data seeded_world).2
  = (if handle seeded_world then advance seeded_world else seeded_world).
Proof.
  apply (seed_guards_stop seeded_world). right. exact seeded_world_marked.
Defined.

(** ** Further properties of the handlers *)

Lemma coll_advance (w : world) (n : string) : coll (advance w) n = coll w n.
Proof. reflexivity. Qed.

(** X1.  The testimonials are filtered by the flag whenever it is given,
    also when it is false: the handler then queries with the filter
    [{featured: flag}] and, when the query does not fail, returns exactly
    the testimonials whose featured field equals the flag, stripped of their
    identifiers; with the parameter left out it returns every
    testimonial. *)
Theorem testimonials_by_featured (w : world) (flag : bool) :
  next_call_ok w = true ->
  get_testimonials (Some flag)
    = query_listing "testimonial" {[ "featured" := Is (VBool flag) ]} /\
  (exists l,
     get_testimonials (Some flag) w = (Ok l, advance w) /\
     l = map (delete "_id")
           (filter (fun d : doc => d !! "featured" = Some (VBool flag))
                   (coll w "testimonial")) /\
     Forall (fun d : doc => d !! "featured" = Some (VBool flag)) l) /\
  get_testimonials None w
    = (Ok (map (delete "_id") (coll w "testimonial")), advance w).
Proof.
  intros Hok. split; [ reflexivity | ]. split.
  - eexists. split; [ | split; [ reflexivity | by apply Forall_field_after_strip ] ].
    change (get_testimonials (Some flag))
      with (query_listing "testimonial" {[ "featured" := Is (VBool flag) ]}).
    by rewrite (query_listing_ok _ _ w Hok), filter_by_field.
  - change (get_testimonials None) with (query_listing "testimonial" ∅).
    by apply query_listing_all.
Qed.

Lemma testimonials_by_featured_witness :
  get_testimonials (Some false)
    = query_listing "testimonial" {[ "featured" := Is (VBool false) ]} /\
  (exists l,
     get_testimonials (Some false) seeded_world = (Ok l, advance seeded_world) /\
     l = map (delete "_id")
           (filter (fun d : doc => d !! "featured" = Some (VBool false))
                   (coll seeded_world "testimonial")) /\
     Forall (fun d : doc => d !! "featured" = Some (VBool false)) l) /\
  get_testimonials None seeded_world
    = (Ok (map (delete "_id") (coll seeded_world "testimonial")), advance seeded_world).
Proof.
  apply (testimonials_by_featured seeded_world false). exact seeded_world_ready.
Defined.

Lemma matches_tag (tag : string) (d : doc) :
  matches {[ "tags" := InList [VStr tag] ]} d = true <-> has_tag tag d = true.
Proof.
  unfold matches, has_tag. rewrite bool_decide_eq_true, map_Forall_singleton.
  destruct (d !! "tags") as [v|]; simpl; [ | done ].
  destruct v as [ | b | z | s | l | t | n ]; simpl;
    rewrite ?bool_decide_eq_true, ?list_elem_of_singleton; try done.
  rewrite <- Is_true_true, existb_True, Exists_exists. split.
  - intros (s & Hs & Hin). apply Is_true_true, bool_decide_eq_true in Hin.
    apply list_elem_of_singleton in Hin. by injection Hin as ->.
  - intros Hin. exists tag. split; [ exact Hin | ].
    apply Is_true_true, bool_decide_eq_true, list_elem_of_singleton. reflexivity.
Qed.

(** X2.  The posts are filtered by tag membership.  For a tag that is given
    and not empty the handler queries with the filter
    [{tags: {"$in": [tag]}}] and, when the query does not fail, returns
    exactly the posts that carry the tag, stripped of their identifiers: no
    returned post has a tags sequence without the tag. *)
Theorem posts_by_tag (w : world) (tag : string) :
  tag <> "" -> next_call_ok w = true ->
  get_posts (Some tag) = query_listing "post" {[ "tags" := InList [VStr tag] ]} /\
  exists l,
    get_posts (Some tag) w = (Ok l, advance w) /\
    l = map (delete "_id") (filter (fun d => has_tag tag d = true) (coll w "post")) /\
    Forall (fun d : doc => forall tags, d !! "tags" = Some (VStrs tags) -> tag ∈ tags) l.
Proof.
  intros Htag Hok.
  assert (Hq : get_posts (Some tag)
               = query_listing "post" {[ "tags" := InList [VStr tag] ]}).
  { unfold get_posts, query_listing, str_truthy. by rewrite bool_decide_eq_false_2. }
  split; [ exact Hq | ]. eexists. split; [ | split; [ reflexivity | ] ].
  - rewrite Hq, (query_listing_ok _ _ w Hok).
    by rewrite (list_filter_iff _ (fun d => has_tag tag d = true))
      by (intros d; apply matches_tag).
  - apply Forall_map, Forall_forall. intros d Hd tags. simpl.
    apply list_elem_of_filter in Hd as [Hd _].
    rewrite lookup_delete_ne by done. intros Ht. unfold has_tag in Hd.
    rewrite Ht in Hd. by apply bool_decide_eq_true in Hd.
Qed.

Lemma posts_by_tag_witness :
  get_posts (Some "cosmetic dentistry")
    = query_listing "post" {[ "tags" := InList [VStr "cosmetic dentistry"] ]} /\
  exists l,
    get_posts (Some "cosmetic dentistry") seeded_world = (Ok l, advance seeded_world) /\
    l = map (delete "_id")
          (filter (fun d => has_tag "cosmetic dentistry" d = true)
                  (coll seeded_world "post")) /\
    Forall (fun d : doc =>
              forall tags, d !! "tags" = Some (VStrs tags) -> "cosmetic dentistry" ∈ tags) l.
Proof.
  apply (posts_by_tag seeded_world "cosmetic dentistry").
  - discriminate.
  - exact seeded_world_ready.
Defined.

Lemma query_listing_raises name q w msg rest :
  handle w = true -> pending w = Some msg :: rest ->
  query_listing name q w = (Raise (HTTPException 500 msg), advance w).
Proof.
  intros Hh Hp. unfold query_listing, try_except, bind, get_documents, find, db_call.
  by rewrite Hh, Hp.
Qed.

(** X4.  A failing query is a server error that carries the message: when
    the database call of a listing handler raises, each of the three
    listing routes answers with status 500 and the text of the exception as
    its detail. *)
Theorem listing_failure_reported (r : listing) (w : world) (msg : string)
    (rest : list (option string)) :
  handle w = true -> pending w = Some msg :: rest ->
  route_listing r w = (Response 500 (Detail msg), advance w).
Proof.
  intros Hh Hp. destruct (listing_is_query r) as (name & q & ->).
  unfold serve. by rewrite (query_listing_raises name q w msg rest Hh Hp).
Qed.

Lemma listing_failure_reported_witness :
  route_listing (Posts None) down_world
  = (Response 500 (Detail "connection refused"), advance down_world).
Proof.
  apply (listing_failure_reported (Posts None) down_world "connection refused" []).
  - reflexivity.
  - reflexivity.
Defined.

(** X5.  The listing routes and the probe only read: whatever they answer,
    every collection holds afterwards what it held before, and no
    identifier was generated. *)
Theorem reads_never_write (w : world) :
  (forall r n, coll (route_listing r w).2 n = coll w n) /\
  (forall n, coll (route_test w).2 n = coll w n) /\
  (forall r, next_oid (route_listing r w).2 = next_oid w) /\
  next_oid (route_test w).2 = next_oid w.
Proof.
  assert (Hl : forall r, (route_listing r w).2 = advance w \/ (route_listing r w).2 = w).
  { intros r. destruct (listing_is_query r) as (name & q & ->).
    unfold serve, query_listing, try_except, bind, get_documents, find, db_call.
    destruct (handle w); [ | by right ].
    destruct (pending w) as [|[msg|] rest]; by left. }
  assert (Ht : (route_test w).2 = advance w \/ (route_test w).2 = w).
  { unfold route_test, serve, test_database, test_database_try,
      list_collection_names, db_call.
    destruct (handle w); [ | by right ].
    destruct (pending w) as [|[msg|] rest]; by left. }
  repeat split.
  - intros r n. by destruct (Hl r) as [-> | ->].
  - intros n. by destruct Ht as [-> | ->].
  - intros r. by destruct (Hl r) as [-> | ->].
  - by destruct Ht as [-> | ->].
Qed.

(** X3.  A failing insertion is a server error that carries the message:
    for a body the schema accepts, when the insertion raises, POST
    /api/appointment answers with status 500 and the text of the exception
    as its detail, and nothing is stored. *)
Theorem appointment_failure_reported (EmailStr : string -> option string)
    (body : gmap string json) (request : AppointmentRequest.t) (w : world)
    (msg : string) (rest : list (option string)) :
  model_validate EmailStr body = Some request ->
  handle w = true -> pending w = Some msg :: rest ->
  route_appointment EmailStr body w = (Response 500 (Detail msg), advance w) /\
  forall n, coll (route_appointment EmailStr body w).2 n = coll w n.
Proof.
  intros Hvalid Hh Hp.
  assert (E : route_appointment EmailStr body w
              = (Response 500 (Detail msg), advance w)).
  { unfold route_appointment, serve, create_appointment, try_except,
      create_document, bind, insert_one, db_call.
    by rewrite Hvalid, Hh, Hp. }
  split; [ exact E | ]. intros n. by rewrite E.
Qed.

Lemma appointment_failure_reported_witness :
  route_appointment plain_address body_jane down_world
    = (Response 500 (Detail "connection refused"), advance down_world) /\
  forall n, coll (route_appointment plain_address body_jane down_world).2 n
            = coll down_world n.
Proof.
  apply (appointment_failure_reported plain_address body_jane request_jane
           down_world "connection refused" []).
  - exact body_jane_valid.
  - reflexivity.
  - reflexivity.
Defined.

(** X13.  The appointment route writes to one collection only and only by
    appending: whatever the body and whatever the answer, every other
    collection is as it was, and the appointmentrequest collection is the
    old one followed by at most one record. *)
Theorem appointment_only_appends (EmailStr : string -> option string)
    (body : gmap string json) (w : world) :
  (forall n, n <> "appointmentrequest" ->
             coll (route_appointment EmailStr body w).2 n = coll w n) /\
  exists added,
    coll (route_appointment EmailStr body w).2 "appointmentrequest"
      = coll w "appointmentrequest" ++ added /\
    length added <= 1.
Proof.
  unfold route_appointment.
  destruct (model_validate EmailStr body) as [request|].
  - destruct (next_call_ok w) eqn:Hok.
    + unfold serve. rewrite (create_appointment_ok request w Hok). simpl. split.
      * intros n Hn. by rewrite coll_store, decide_False.
      * eexists. split; [ by rewrite coll_store, decide_True | ]. simpl. lia.
    + destruct (create_appointment_fail request w Hok) as (msg & w' & E & Hsame).
      unfold serve. rewrite E. simpl. split; [ by intros n _ | ].
      exists []. split; [ by rewrite app_nil_r | simpl; lia ].
  - simpl. split; [ done | ]. exists []. split; [ by rewrite app_nil_r | simpl; lia ].
Qed.

(** X10.  The schema turns a body away exactly when it breaks one of its
    constraints: POST /api/appointment answers with status 422 if and only
    if a required field is missing or not a string, the email is rejected
    by its validation, or an optional field is neither a string nor null.
    Every other body reaches the handler. *)
Theorem rejected_iff_violates (EmailStr : string -> option string)
    (body : gmap string json) (w : world) :
  status (route_appointment EmailStr body w).1 = 422%Z <-> violates EmailStr body.
Proof.
  split.
  - intros H. apply rejected_violates. unfold route_appointment in H.
    destruct (model_validate EmailStr body) as [request|]; [ | done ].
    exfalso. revert H. unfold serve.
    destruct (next_call_ok w) eqn:Hok.
    + by rewrite (create_appointment_ok request w Hok).
    + destruct (create_appointment_fail request w Hok) as (msg & w' & -> & _).
      discriminate.
  - intros Hv. unfold route_appointment. by rewrite (violates_rejected _ _ Hv).
Qed.

Lemma defaulted_absent inner dflt (body : gmap string json) k o :
  defaulted inner dflt body k = Some o -> body !! k = None -> o = dflt.
Proof. unfold defaulted. intros H Hb. rewrite Hb in H. by injection H. Qed.

Lemma dump_lookup_source (r : AppointmentRequest.t) :
  (model_dump r : doc) !! "source" = Some (opt_str (AppointmentRequest.source r)).
Proof. unfold model_dump, AppointmentRequest_model. by simplify_map_eq. Qed.

(** X11.  What an accepted request is stored as.  The record has exactly the
    eight fields of the schema, whatever other keys the body carried; a
    source that was left out is stored as "website", and any other optional
    field that was left out is stored as null. *)
Theorem accepted_request_defaults (EmailStr : string -> option string)
    (body : gmap string json) (request : AppointmentRequest.t) :
  model_validate EmailStr body = Some request ->
  dom (model_dump request : doc) = appointment_fields /\
  (body !! "source" = None ->
     (model_dump request : doc) !! "source" = Some (VStr "website")) /\
  (forall k, k ∈ ["email"; "preferred_date"; "preferred_time"; "service_type"; "message"] ->
     body !! k = None -> (model_dump request : doc) !! k = Some VNone).
Proof.
  intros Hvalid. apply model_validate_fields in Hvalid.
  destruct Hvalid as (Hfull & Hemail & Hphone & Hdate & Htime & Hserv & Hmsg & Hsrc).
  split; [ | split ].
  - unfold model_dump, AppointmentRequest_model, appointment_fields.
    rewrite !dom_insert_L, dom_empty_L. set_solver.
  - intros Hb. rewrite dump_lookup_source.
    by rewrite (defaulted_absent _ _ _ _ _ Hsrc Hb).
  - intros k Hk Hb. unfold model_dump, AppointmentRequest_model.
    rewrite !elem_of_cons in Hk.
    destruct Hk as [->|[->|[->|[->|[->|Hk]]]]]; [ .. | by apply not_elem_of_nil in Hk ].
    + rewrite (defaulted_absent _ _ _ _ _ Hemail Hb). by simplify_map_eq.
    + rewrite (defaulted_absent _ _ _ _ _ Hdate Hb). by simplify_map_eq.
    + rewrite (defaulted_absent _ _ _ _ _ Htime Hb). by simplify_map_eq.
    + rewrite (defaulted_absent _ _ _ _ _ Hserv Hb). by simplify_map_eq.
    + rewrite (defaulted_absent _ _ _ _ _ Hmsg Hb). by simplify_map_eq.
Qed.

Lemma accepted_request_defaults_witness :
  dom (model_dump request_jane : doc) = appointment_fields /\
  (body_jane !! "source" = None ->
     (model_dump request_jane : doc) !! "source" = Some (VStr "website")) /\
  (forall k, k ∈ ["email"; "preferred_date"; "preferred_time"; "service_type"; "message"] ->
     body_jane !! k = None -> (model_dump request_jane : doc) !! k = Some VNone).
Proof.
  apply (accepted_request_defaults plain_address body_jane request_jane).
  exact body_jane_valid.
Defined.

(** X12.  The schema ignores what it does not know: a key that is not a
    field of the schema makes no difference to whether a body is accepted,
    to the request it becomes, or to the answer of the route. *)
Theorem unknown_key_ignored (EmailStr : string -> option string)
    (body : gmap string json) (k : string) (j : json) :
  k ∉ AppointmentRequest.fields ->
  model_validate EmailStr (<[k := j]> body) = model_validate EmailStr body /\
  forall w, route_appointment EmailStr (<[k := j]> body) w
            = route_appointment EmailStr body w.
Proof.
  intros Hk. unfold AppointmentRequest.fields in Hk.
  rewrite !not_elem_of_cons in Hk.
  destruct Hk as (? & ? & ? & ? & ? & ? & ? & ? & _).
  assert (E : model_validate EmailStr (<[k := j]> body) = model_validate EmailStr body).
  { unfold model_validate, required, defaulted.
    by rewrite !lookup_insert_ne by done. }
  split; [ exact E | ]. intros w. unfold route_appointment. by rewrite E.
Qed.

Lemma unknown_key_ignored_witness :
  model_validate plain_address body_with_extra = model_validate plain_address body_jane /\
  forall w, route_appointment plain_address body_with_extra w
            = route_appointment plain_address body_jane w.
Proof.
  apply (unknown_key_ignored plain_address body_jane "utm_campaign" (JStr "spring")).
  unfold AppointmentRequest.fields. rewrite !not_elem_of_cons.
  repeat (split; [ discriminate | ]). apply not_elem_of_nil.
Defined.

(** X9.  The other fields of the probe's report.  Without a database handle
    the report says that the URL and the name are not set and that there is
    no connection, whatever the environment holds.  With a handle it says
    connected, the URL is set exactly when DATABASE_URL is a non-empty
    string, the name is that of DATABASE_NAME when it is a non-empty string,
    and the collections are the names the database listed, or none when the
    listing raised. *)
Theorem probe_report_fields (w : world) :
  exists (r : doc) (w' : world),
    test_database w = (Ok r, w') /\
    r !! "backend" = Some (VStr "✅ Running") /\
    r !! "connection_status"
      = Some (VStr (if handle w then "Connected" else "Not Connected")) /\
    r !! "database_url"
      = Some (VStr (if handle w && str_truthy (getenv "DATABASE_URL" w)
                    then "✅ Set" else "❌ Not Set")) /\
    r !! "database_name"
      = Some (VStr (if handle w && str_truthy (getenv "DATABASE_NAME" w)
                    then default "" (getenv "DATABASE_NAME" w) else "❌ Not Set")) /\
    r !! "collections"
      = Some (VStrs (if next_call_ok w then (map_to_list (colls w)).*1 else [])).
Proof.
  unfold test_database, test_database_try, next_call_ok.
  destruct (handle w); simpl.
  - unfold list_collection_names, db_call.
    destruct (pending w) as [|[msg|] rest]; simpl;
      eexists _, _; (split; [ reflexivity | ]);
      by simplify_map_eq.
  - eexists _, _. split; [ reflexivity | ]. by simplify_map_eq.
Qed.

(** With no handle the URL is reported as not set although it is set. *)
Example no_handle_report :
  getenv "DATABASE_URL" no_handle_world = Some "mongodb://db:27017" /\
  match (test_database no_handle_world).1 with
  | Ok r => r !! "database_url"
  | Raise _ => None
  end = Some (VStr "❌ Not Set").
Proof. split; vm_compute; reflexivity. Qed.

(** ** From seeding to serving *)

Lemma calm_next_call_ok (w : world) :
  handle w = true -> calm w -> next_call_ok w = true.
Proof.
  intros Hh Hc. unfold next_call_ok. rewrite Hh. simpl.
  destruct (pending w) as [|[msg|] rest] eqn:Hp; try done.
  exfalso. exact (calm_head w msg rest Hc Hp).
Qed.

Lemma strip_stored (seeds new : list doc) :
  Forall (fun d : doc => d !! "_id" = None) seeds ->
  Forall2 stored_as seeds new ->
  map (delete "_id") new = seeds.
Proof.
  intros Hno H. induction H as [|d s seeds' new' (oid & ->) _ IH]; [ done | ].
  apply Forall_cons in Hno as [Hd Hno]. simpl. f_equal; [ | by apply IH ].
  rewrite delete_insert_eq. by apply delete_id.
Qed.

Lemma testimonial_dump_no_id (x : Testimonial.t) : (model_dump x : doc) !! "_id" = None.
Proof. unfold model_dump, Testimonial_model. by simplify_map_eq. Qed.

Lemma service_dump_no_id (x : Service.t) : (model_dump x : doc) !! "_id" = None.
Proof. unfold model_dump, Service_model. by simplify_map_eq. Qed.

Lemma post_dump_no_id (x : Post.t) : (model_dump x : doc) !! "_id" = None.
Proof. unfold model_dump, Post_model. by simplify_map_eq. Qed.

(** X14.  What was seeded is what is served.  After a run of the seed
    routine on a database with the three content collections empty and no
    marker, with no database call failing, the three listing routes without
    a parameter answer with exactly the seed records as the code writes
    them: the three testimonials, the five services and the welcome post,
    in that order and without identifiers. *)
Theorem seeded_content_served (w : world) :
  handle w = true -> calm w -> ~ has_marker (coll w "meta") ->
  coll w "testimonial" = [] -> coll w "service" = [] -> coll w "post" = [] ->
  exists (w1 : world) (t : nat),
    ensure_seed_data w = (Ok tt, w1) /\
    route_testimonials None w1
      = (Response 200 (JsonList (model_dump <$> samples)), advance w1) /\
    route_services None w1
      = (Response 200 (JsonList (model_dump <$> services)), advance w1) /\
    route_posts None w1
      = (Response 200 (JsonList [model_dump (welcome_post t)]), advance w1).
Proof.
  intros Hh Hcalm Hfresh Et Es Ep.
  pose proof (seed_run_fresh w Hh Hfresh) as H.
  destruct (ensure_seed_data w) as [[[]|e] w1]; [ | by destruct H ].
  destruct H as (Hh1 & Hc1 & _ & Ht & Hs & (t & Hp) & _).
  rewrite Et in Ht. rewrite Es in Hs. rewrite Ep in Hp.
  unfold seeded_with in Ht, Hs, Hp.
  assert (Hok : next_call_ok w1 = true) by (apply calm_next_call_ok; auto).
  exists w1, t. split; [ reflexivity | ].
  unfold route_testimonials, route_services, route_posts.
  change (get_testimonials None) with (query_listing "testimonial" ∅).
  change (get_services None) with (query_listing "service" ∅).
  change (get_posts None) with (query_listing "post" ∅).
  unfold serve. rewrite !(query_listing_all _ w1 Hok).
  rewrite (strip_stored _ _ (proj2 (Forall_fmap _ _ _)
             (proj2 (Forall_forall _ _) (fun x _ => testimonial_dump_no_id x))) Ht).
  rewrite (strip_stored _ _ (proj2 (Forall_fmap _ _ _)
             (proj2 (Forall_forall _ _) (fun x _ => service_dump_no_id x))) Hs).
  rewrite (strip_stored _ _ (Forall_cons_2 _ _ _ (post_dump_no_id _) (Forall_nil_2 _)) Hp).
  done.
Qed.

Lemma seeded_content_served_witness :
  exists (w1 : world) (t : nat),
    ensure_seed_data fresh_world = (Ok tt, w1) /\
    route_testimonials None w1
      = (Response 200 (JsonList (model_dump <$> samples)), advance w1) /\
    route_services None w1
      = (Response 200 (JsonList (model_dump <$> services)), advance w1) /\
    route_posts None w1
      = (Response 200 (JsonList [model_dump (welcome_post t)]), advance w1).
Proof.
  apply (seeded_content_served fresh_world).
  - reflexivity.
  - constructor.
  - exact no_marker_nil.
  - reflexivity.
  - reflexivity.
  - reflexivity.
Defined.

(** ** The size of the probe's error text *)

Lemma str_prefix_length (n : nat) (s : string) :
  str_len (str_prefix n s) = Nat.min n (str_len s).
Proof.
  revert n. induction s as [|c s IH]; intros n; simpl.
  - by rewrite Nat.min_0_r.
  - destruct (is_continuation c) eqn:Hc; simpl; rewrite ?Hc.
    + apply IH.
    + destruct n as [|n]; [ done | ]. simpl. rewrite Hc. by rewrite IH.
Qed.

Lemma str_prefix_is_prefix (n : nat) (s : string) :
  String.prefix (str_prefix n s) s = true.
Proof.
  revert n. induction s as [|c s IH]; intros n; simpl; [ done | ].
  destruct (is_continuation c); [ | destruct n as [|n]; [ done | ] ]; simpl;
    (destruct (ascii_dec c c) as [_|Hne]; [ apply IH | by destruct Hne ]).
Qed.

(** The cut counts characters, not bytes. *)
Example str_prefix_characters :
  str_prefix 2 "éèà" = "éè" /\ str_len "éèà" = 3 /\ String.length "éèà" = 6.
Proof. repeat split. Qed.

(** X15.  The error text of the probe is bounded.  When the listing of the
    collections raises, the database field of the report is the fixed
    introduction followed by the beginning of the exception's message, cut
    after eighty characters: a message of any length adds at most eighty
    characters to the report. *)
Theorem probe_error_text_bounded (w : world) (msg : string)
    (rest : list (option string)) :
  handle w = true -> pending w = Some msg :: rest ->
  exists (r : doc) (w' : world) (text : string),
    test_database w = (Ok r, w') /\
    r !! "database" = Some (VStr ("⚠️ Connected but Error: " +:+ text)) /\
    String.prefix text msg = true /\
    str_len text = Nat.min 80 (str_len msg) /\
    str_len text <= 80.
Proof.
  intros Hh Hp.
  unfold test_database, test_database_try, list_collection_names, db_call.
  rewrite Hh, Hp. cbn [exn_str]. eexists _, _, (str_prefix 80 msg).
  split; [ reflexivity | ]. split; [ by rewrite lookup_insert_eq | ].
  split; [ apply str_prefix_is_prefix | ].
  split; [ apply str_prefix_length | ].
  rewrite str_prefix_length. apply Nat.le_min_l.
Qed.

Lemma probe_error_text_bounded_witness :
  exists (r : doc) (w' : world) (text : string),
    test_database down_world = (Ok r, w') /\
    r !! "database" = Some (VStr ("⚠️ Connected but Error: " +:+ text)) /\
    String.prefix text "connection refused" = true /\
    str_len text = Nat.min 80 (str_len "connection refused") /\
    str_len text <= 80.
Proof.
  apply (probe_error_text_bounded down_world "connection refused" []).
  - reflexivity.
  - reflexivity.
Defined.
